(** * A retrieval-augmented generation pipeline: ingestion and query core

    Shallow embedding of
      - [src/backend/rag/chain.py]        (conversation classifier, prompt
                                           assembly, citations),
      - [src/backend/rag/vectorstore.py]  (the retriever's [query]),
      - [src/scripts/ingest.py]           (text extraction, chunking,
                                           content-addressed item ids),
    together with the properties the specification states about them.

    Conventions.  A Python [str] is a sequence of code points; here a text is
    a Rocq [string] whose characters stand for the code points U+0000 to
    U+00FF, so that [len] is [String.length].  [str.lower], [str.strip],
    [str.split] and the UTF-8 encoder are written out on that range.  External
    services (embedding model, vector index, chat model, file system) are
    parameters; every call to them is recorded in a log. *)

From Stdlib Require Import ZArith QArith List Ascii String Lia Bool.
From Stdlib Require Import Decimal DecimalString.
From stdpp Require Import gmap strings list.

Local Open Scope string_scope.
Local Open Scope list_scope.
Local Open Scope nat_scope.

(** ** Python string primitives *)

Module Py.

Definition chars (s : string) : list ascii := list_ascii_of_string s.
Definition of_chars (l : list ascii) : string := string_of_list_ascii l.

Definition code (c : ascii) : nat := nat_of_ascii c.

(** [c.isspace()] on U+0000..U+00FF: TAB, LF, VT, FF, CR, the separators
    FS, GS, RS, US, SPACE, NEL and NBSP. *)
Definition isspace (c : ascii) : bool :=
  let n := code c in
  (((9 <=? n) && (n <=? 13)) || ((28 <=? n) && (n <=? 32))
   || (n =? 133) || (n =? 160))%nat.

(** [c.lower()] on the same range: A-Z and the upper-case letters of the
    Latin-1 supplement (U+00C0..U+00DE but the multiplication sign). *)
Definition lower_char (c : ascii) : ascii :=
  let n := code c in
  if (((65 <=? n) && (n <=? 90))
      || ((192 <=? n) && (n <=? 214))
      || ((216 <=? n) && (n <=? 222)))%nat
  then ascii_of_nat (n + 32) else c.

Definition lower (s : string) : string := of_chars (map lower_char (chars s)).

Fixpoint drop_while {A} (p : A -> bool) (l : list A) : list A :=
  match l with
  | [] => []
  | x :: l' => if p x then drop_while p l' else l
  end.

Definition lstrip_chars (l : list ascii) : list ascii := drop_while isspace l.
Definition rstrip_chars (l : list ascii) : list ascii :=
  rev (drop_while isspace (rev l)).
Definition strip_chars (l : list ascii) : list ascii :=
  rstrip_chars (lstrip_chars l).

(** [s.strip()] *)
Definition strip (s : string) : string := of_chars (strip_chars (chars s)).

(** [s.split()] with no argument: the maximal runs of non-whitespace.
    [cur] is the run being read, most recent character first. *)
Fixpoint split_chars (cur : list ascii) (l : list ascii) : list (list ascii) :=
  match l with
  | [] => match cur with [] => [] | _ => [rev cur] end
  | c :: l' =>
      if isspace c
      then match cur with
           | [] => split_chars [] l'
           | _ => rev cur :: split_chars [] l'
           end
      else split_chars (c :: cur) l'
  end.

Definition split (s : string) : list string :=
  map of_chars (split_chars [] (chars s)).

(** [l] starts with [w]. *)
Fixpoint starts_with (w l : list ascii) : bool :=
  match w, l with
  | [], _ => true
  | _ :: _, [] => false
  | a :: w', b :: l' => Ascii.eqb a b && starts_with w' l'
  end.

(** [w in l] for strings: [w] occurs in [l] as a contiguous slice. *)
Fixpoint occurs (w l : list ascii) : bool :=
  starts_with w l ||
  match l with
  | [] => false
  | _ :: l' => occurs w l'
  end.

(** [w in s] *)
Definition contains (w s : string) : bool := occurs (chars w) (chars s).

(** [x in xs] for a list of strings *)
Definition in_list (x : string) (xs : list string) : bool :=
  existsb (String.eqb x) xs.

(** [sep.join(xs)] *)
Fixpoint join (sep : string) (xs : list string) : string :=
  match xs with
  | [] => ""
  | [x] => x
  | x :: rest => x +:+ sep +:+ join sep rest
  end.

(** The line feed, written [\n] in the source. *)
Definition nl : string := String (ascii_of_nat 10) "".

(** [str(n)] for a non-negative integer. *)
Definition str_of_nat (n : nat) : string :=
  NilZero.string_of_uint (Nat.to_uint n).

(** Truthiness of a list and of a string: empty is falsy. *)
Definition truthy {A} (xs : list A) : bool :=
  match xs with [] => false | _ => true end.
Definition truthy_str (s : string) : bool := negb (String.eqb s "").

(** [x or d] for an optional string: [None] and the empty string are
    falsy. *)
Definition str_or (x : option string) (d : string) : string :=
  match x with
  | Some s => if truthy_str s then s else d
  | None => d
  end.

(** [xs[-n:]] *)
Definition last_n {A} (n : nat) (xs : list A) : list A :=
  drop (length xs - n) xs.

End Py.

(** ** The conversation classifier ([chain.py], [_is_general_conversation]) *)

Definition greetings : list string :=
  [ "hi"; "hello"; "hey"; "good morning"; "good afternoon"; "good evening";
    "how are you"; "how's it going"; "what's up"; "how do you do";
    "thanks"; "thank you"; "bye"; "goodbye"; "see you later";
    "nice to meet you"; "pleasure to meet you" ].

Definition filler_words : list string :=
  [ "hi"; "hello"; "hey"; "ok"; "yes"; "no" ].

Definition _is_general_conversation (message : string) : bool :=
  let message_lower := Py.strip (Py.lower message) in
  if Py.in_list message_lower greetings then true
  else if (length (Py.split message) <=? 2)%nat
          && existsb (fun word => Py.contains word message_lower) filler_words
       then true
       else false.

(** ** Data of the query pipeline *)

(** One chat message, [{"role": ..., "content": ...}]. *)
Record Message := { role : string; content : string }.

(** An embedding vector.  Only its identity matters here. *)
Definition embedding := list Q.

(** A match as the vector index returns it; [metadata] may be missing. *)
Record RawMatch :=
  { raw_id : string; raw_score : Q; raw_metadata : option (gmap string string) }.

(** A match as [PineconeVectorStore.query] hands it on: the dict with the
    keys [id], [score] and [metadata].  The metadata the pipeline reads
    ([source], [text], [content]) is string-valued. *)
Record Match :=
  { m_id : string; m_score : Q; m_metadata : gmap string string }.

(** One citation, [{"id": ..., "score": ..., "source": ...}]; [source] is
    [None] when the metadata has no such key. *)
Record Citation :=
  { c_id : string; c_score : Q; c_source : option string }.

(** The result of [invoke], [{"answer": ..., "citations": ...}]. *)
Record ChatResult := { answer : string; citations : list Citation }.

(** ** External services and the call log *)

Inductive event :=
| EmbeddingsCreate (model : string) (input : list string)
| IndexQuery (vector : embedding) (top_k : Z) (include_metadata : bool)
             (namespace : string)
| ChatCompletionsCreate (model : string) (messages : list Message)
                        (temperature : Q).

(** What the services answer.  The embedding service returns one vector per
    input text, in order (its wire contract). *)
Record services :=
  { embed_one : string -> string -> embedding;
    index_query : embedding -> Z -> string -> list RawMatch;
    chat_create : string -> list Message -> Q -> string }.

Inductive exn := IndexError.

Inductive outcome (A : Type) :=
| Ok (a : A)
| Raise (e : exn).
Arguments Ok {A} a.
Arguments Raise {A} e.

(** Computations that call services: the log of calls is threaded through. *)
Definition M (A : Type) : Type := list event -> outcome A * list event.

Definition ret {A} (a : A) : M A := fun log => (Ok a, log).
Definition raise {A} (e : exn) : M A := fun log => (Raise e, log).
Definition bind {A B} (m : M A) (k : A -> M B) : M B :=
  fun log =>
    match m log with
    | (Ok a, log') => k a log'
    | (Raise e, log') => (Raise e, log')
    end.
Definition emit (e : event) : M unit := fun log => (Ok tt, log ++ [e]).

Notation "'do' x <- m ; k" := (bind m (fun x => k))
  (at level 10, x name, m at level 100, k at level 200).

(** [x > y] on scores.  Scores and the literal 0.3 are binary floats; on
    those, comparing with the real 3/10 and with the float nearest to it
    agree, so [x > 0.3] is the comparison of rationals. *)
Definition Qgtb (x y : Q) : bool :=
  (Qnum y * QDen x <? Qnum x * QDen y)%Z.

Definition SYSTEM_PROMPT : string :=
  "You are a helpful AI assistant that can answer questions about uploaded documents and engage in general conversation. "
  +:+ "When you have relevant document context provided, use it to give accurate, detailed answers. "
  +:+ "When no relevant context is available, you can still help with general questions using your knowledge. "
  +:+ "Always be friendly, helpful, and conversational. If you reference information from the provided documents, "
  +:+ "mention that it's from the uploaded content.".

(** ** The retriever ([vectorstore.py]) *)

Record PineconeVectorStore := { index_name : string; embedding_model : string }.

Section Services.
Variable svc : services.

Definition openai_embeddings_create (model : string) (input : list string)
  : M (list embedding) :=
  do u <- emit (EmbeddingsCreate model input);
  ret (map (embed_one svc model) input).

Definition pinecone_index_query (vector : embedding) (top_k : Z)
    (include_metadata : bool) (namespace : string) : M (list RawMatch) :=
  do u <- emit (IndexQuery vector top_k include_metadata namespace);
  ret (index_query svc vector top_k namespace).

Definition openai_chat_create (model : string) (messages : list Message)
    (temperature : Q) : M string :=
  do u <- emit (ChatCompletionsCreate model messages temperature);
  ret (chat_create svc model messages temperature).

Definition embed_texts (self : PineconeVectorStore) (texts : list string)
  : M (list embedding) :=
  match texts with
  | [] => ret []
  | _ => openai_embeddings_create (embedding_model self) texts
  end.

(** The normalisation loop of [query]. *)
Definition normalize (m : RawMatch) : Match :=
  {| m_id := raw_id m;
     m_score := raw_score m;
     m_metadata := default ∅ (raw_metadata m) |}.

Definition query (self : PineconeVectorStore) (query : string) (top_k : Z)
    (namespace : option string) : M (list Match) :=
  do vecs <- embed_texts self [query];
  match vecs with
  | [] => raise IndexError
  | query_vec :: _ =>
      do result <- pinecone_index_query query_vec top_k true
                     (Py.str_or namespace "default");
      ret (map normalize result)
  end.

(** ** The chain ([chain.py]) *)

Record RAGChain := { vectorstore : PineconeVectorStore; chat_model : string }.

Definition _build_context (docs : list Match) : string :=
  let lines :=
    flat_map (fun d =>
      let meta := m_metadata d in
      let source := default "unknown" (meta !! "source") in
      let snippet :=
        Py.str_or (meta !! "text") (Py.str_or (meta !! "content") "") in
      let header := "Source: " +:+ source in
      [header; snippet; ""]) docs in
  Py.join Py.nl lines.

(** A history turn is a dict; [role] and [content] are read with
    defaults. *)
Definition turn_message (turn : gmap string string) : Message :=
  {| role := default "user" (turn !! "role");
     content := default "" (turn !! "content") |}.

Definition citation (d : Match) : Citation :=
  {| c_id := m_id d;
     c_score := m_score d;
     c_source := m_metadata d !! "source" |}.

Definition context_prompt (context_text message : string) : string :=
  "Here's some relevant information from uploaded documents:" +:+ Py.nl +:+ Py.nl
  +:+ context_text +:+ Py.nl +:+ Py.nl
  +:+ "Now, please answer this question: " +:+ message.

Definition fallback_note : string :=
  "(Note: No relevant document context was found for this query, so please answer using your general knowledge.)".

Definition fallback_prompt (message : string) : string :=
  "Question: " +:+ message +:+ Py.nl +:+ Py.nl +:+ fallback_note.

Definition invoke (self : RAGChain) (message : string)
    (history : option (list (gmap string string))) (top_k : Z)
    (namespace : option string) : M ChatResult :=
  let history := default [] history in
  let is_general_conversation := _is_general_conversation message in
  do prepared <-
    (if is_general_conversation then ret ([], message)
     else
       do retrieved <- query (vectorstore self) message top_k namespace;
       let context_text := _build_context retrieved in
       let relevant_docs :=
         List.filter (fun doc => Qgtb (m_score doc) (3 # 10)) retrieved in
       if Py.truthy relevant_docs && Py.truthy_str (Py.strip context_text)
       then ret (retrieved, context_prompt context_text message)
       else ret (retrieved, fallback_prompt message));
  let '(retrieved, user_content) := prepared in
  let messages :=
    [ {| role := "system"; content := SYSTEM_PROMPT |};
      {| role := "user"; content := user_content |} ]
    ++ map turn_message (Py.last_n 3 history) in
  do answer <- openai_chat_create (chat_model self) messages (1 # 5);
  ret {| answer := answer; citations := map citation retrieved |}.

End Services.

(** ** The classifier and the pipeline as the specification words them *)

(** [w] occurs somewhere inside [s]. *)
Definition is_slice (w s : string) : Prop :=
  exists pre post, s = pre +:+ w +:+ post.

(** Section 4.5: on the trimmed, case-folded message, (a) an exact match with
    a greeting phrase, or (b) at most two whitespace-delimited tokens and a
    filler word contained in the message. *)
Definition isGeneralConversation_spec (message : string) : Prop :=
  let trimmed := Py.strip (Py.lower message) in
  In trimmed greetings
  \/ (length (Py.split trimmed) <= 2
      /\ exists word, In word filler_words /\ is_slice word trimmed).

(** Calls that belong to retrieval: embedding the query and searching the
    index. *)
Definition is_retrieval_call (e : event) : bool :=
  match e with
  | EmbeddingsCreate _ _ | IndexQuery _ _ _ _ => true
  | ChatCompletionsCreate _ _ _ => false
  end.

(** The message sequences of the chat calls recorded in a log. *)
Definition chat_calls (log : list event) : list (list Message) :=
  flat_map (fun e => match e with
                     | ChatCompletionsCreate _ messages _ => [messages]
                     | _ => []
                     end) log.

(** What the retriever returns for a message (section 4.4): the index's
    answer for the embedded query, normalised, in the index's order. *)
Definition retrieved_matches (svc : services) (self : RAGChain)
    (message : string) (top_k : Z) (namespace : option string) : list Match :=
  map normalize
    (index_query svc
       (embed_one svc (embedding_model (vectorstore self)) message)
       top_k (Py.str_or namespace "default")).

(** Section 4.6: a match is relevant enough when its score exceeds 0.3. *)
Definition relevant (d : Match) : Prop := (3 # 10 < m_score d)%Q.

(** The message sequence [invoke] builds: the system instruction, the user
    message, then the history window. *)
Definition sent_messages (user_content : string)
    (history : option (list (gmap string string))) : list Message :=
  [ {| role := "system"; content := SYSTEM_PROMPT |};
    {| role := "user"; content := user_content |} ]
  ++ map turn_message (Py.last_n 3 (default [] history)).

(** The user content [invoke] chooses on the retrieval path. *)
Definition retrieval_user_content (retrieved : list Match) (message : string)
  : string :=
  if existsb (fun doc => Qgtb (m_score doc) (3 # 10)) retrieved
  then context_prompt (_build_context retrieved) message
  else fallback_prompt message.

(** A small instance of the services and of the chain, for examples. *)
Definition demo_services : services :=
  {| embed_one := fun _ text => [Z.of_nat (String.length text) # 1]%Q;
     index_query := fun _ _ _ =>
       [ {| raw_id := "notes.txt-0-9f86d081884c7d65";
            raw_score := 1 # 4;
            raw_metadata := Some {[ "source" := "notes.txt"; "text" := "tea" ]} |};
         {| raw_id := "notes.txt-1-60303ae22b998861";
            raw_score := 1 # 10;
            raw_metadata := None |} ];
     chat_create := fun _ _ _ => "fine" |}.

Definition demo_chain : RAGChain :=
  {| vectorstore := {| index_name := "documents";
                       embedding_model := "text-embedding-3-small" |};
     chat_model := "gpt-4o-mini" |}.

(** ** Ingestion ([scripts/ingest.py]) *)

(** *** Paths

    A [pathlib.Path] is kept as its string form [str(path)], the components
    separated by "/".  [name] is the final component, and [suffix] follows
    pathlib: the part of the name from its last dot, provided that dot is
    neither the first nor the last character of the name. *)
Module Pathlib.

Definition Path := string.

Fixpoint take_while {A} (p : A -> bool) (l : list A) : list A :=
  match l with
  | [] => []
  | x :: l' => if p x then x :: take_while p l' else []
  end.

(** The characters after the last occurrence of [c] (all of them when
    there is none). *)
Definition after_last (c : ascii) (l : list ascii) : list ascii :=
  rev (take_while (fun x => negb (Ascii.eqb x c)) (rev l)).

Definition name (path : Path) : string :=
  Py.of_chars (after_last "/" (Py.chars path)).

(** [s.rfind(c)]: the index of the last [c], or -1. *)
Definition rfind (c : ascii) (s : string) : Z :=
  let l := Py.chars s in
  if existsb (Ascii.eqb c) l
  then Z.of_nat (length l) - Z.of_nat (length (after_last c l)) - 1
  else (-1).

Definition suffix (path : Path) : string :=
  let name := name path in
  let i := rfind "." name in
  if ((0 <? i) && (i <? Z.of_nat (String.length name) - 1))%Z
  then Py.of_chars (drop (Z.to_nat i) (Py.chars name))
  else "".

End Pathlib.

(** *** Text extraction *)

Inductive ingest_error :=
| UnsupportedFormat (message : string)
    (* [raise ValueError(f"Unsupported file type: {path.suffix}")] *)
| ReadFailure (reason : string).
    (* whatever the PDF reader or the file system raises *)

Inductive result (A : Type) :=
| Success (a : A)
| Failure (e : ingest_error).
Arguments Success {A} a.
Arguments Failure {A} e.

(** The file system as the extractor sees it: the text of each page of a
    PDF ([None] for a page without extractable text), and the decoded
    contents of a text file.  Either read may fail with a reason. *)
Record files :=
  { pdf_pages : Pathlib.Path -> list (option string) + string;
    read_text : Pathlib.Path -> string + string }.

Definition supported_suffixes : list string := [".pdf"; ".txt"; ".md"].

Definition file_to_text (fs : files) (path : Pathlib.Path) : result string :=
  if String.eqb (Py.lower (Pathlib.suffix path)) ".pdf" then
    match pdf_pages fs path with
    | inl pages =>
        let parts := map (fun page => Py.str_or page "") pages in
        Success (Py.join Py.nl parts)
    | inr reason => Failure (ReadFailure reason)
    end
  else if Py.in_list (Py.lower (Pathlib.suffix path)) [".txt"; ".md"] then
    match read_text fs path with
    | inl text => Success text
    | inr reason => Failure (ReadFailure reason)
    end
  else
    Failure (UnsupportedFormat
               ("Unsupported file type: " +:+ Pathlib.suffix path)).

(** *** UTF-8 *)

(** [text.encode("utf-8")] for code points below U+0100: one byte below
    U+0080, two bytes from there on. *)
Definition utf8_char (c : ascii) : list Z :=
  let n := Z.of_nat (Py.code c) in
  if (n <? 128)%Z then [n]
  else [Z.lor 192 (Z.shiftr n 6); Z.lor 128 (Z.land n 63)].

Definition utf8_encode (text : string) : list Z :=
  flat_map utf8_char (Py.chars text).

(** *** SHA-256 (FIPS 180-4), as [hashlib.sha256] computes it *)

Module SHA256.
Local Open Scope Z_scope.

Definition mask : Z := 4294967295.
Definition add32 (x y : Z) : Z := Z.land (x + y) mask.
Definition rotr (n x : Z) : Z :=
  Z.lor (Z.shiftr x n) (Z.land (Z.shiftl x (32 - n)) mask).
Definition shr (n x : Z) : Z := Z.shiftr x n.

Definition Ch (x y z : Z) : Z :=
  Z.lxor (Z.land x y) (Z.land (Z.lxor x mask) z).
Definition Maj (x y z : Z) : Z :=
  Z.lxor (Z.lxor (Z.land x y) (Z.land x z)) (Z.land y z).
Definition Sigma0 (x : Z) : Z :=
  Z.lxor (Z.lxor (rotr 2 x) (rotr 13 x)) (rotr 22 x).
Definition Sigma1 (x : Z) : Z :=
  Z.lxor (Z.lxor (rotr 6 x) (rotr 11 x)) (rotr 25 x).
Definition sigma0 (x : Z) : Z :=
  Z.lxor (Z.lxor (rotr 7 x) (rotr 18 x)) (shr 3 x).
Definition sigma1 (x : Z) : Z :=
  Z.lxor (Z.lxor (rotr 17 x) (rotr 19 x)) (shr 10 x).

(** The round constants K(0), ..., K(63) of section 4.2.2, from 0x428a2f98
    to 0xc67178f2, in decimal. *)
Definition K : list Z :=
  [ 1116352408; 1899447441; 3049323471; 3921009573;
    961987163; 1508970993; 2453635748; 2870763221;
    3624381080; 310598401; 607225278; 1426881987;
    1925078388; 2162078206; 2614888103; 3248222580;
    3835390401; 4022224774; 264347078; 604807628;
    770255983; 1249150122; 1555081692; 1996064986;
    2554220882; 2821834349; 2952996808; 3210313671;
    3336571891; 3584528711; 113926993; 338241895;
    666307205; 773529912; 1294757372; 1396182291;
    1695183700; 1986661051; 2177026350; 2456956037;
    2730485921; 2820302411; 3259730800; 3345764771;
    3516065817; 3600352804; 4094571909; 275423344;
    430227734; 506948616; 659060556; 883997877;
    958139571; 1322822218; 1537002063; 1747873779;
    1955562222; 2024104815; 2227730452; 2361852424;
    2428436474; 2756734187; 3204031479; 3329325298 ].

(** The eight working variables, and the hash value between blocks. *)
Record state :=
  { sa : Z; sb : Z; sc : Z; sd : Z; se : Z; sf : Z; sg : Z; sh : Z }.

(** The initial hash value of section 5.3.3, from 0x6a09e667 to
    0x5be0cd19, in decimal. *)
Definition H0 : state :=
  {| sa := 1779033703; sb := 3144134277; sc := 1013904242; sd := 2773480762;
     se := 1359893119; sf := 2600822924; sg := 528734635; sh := 1541459225 |}.

(** Padding: the bit 1, zeros up to 56 modulo 64 bytes, then the length of
    the message in bits as a 64-bit big-endian number. *)
Definition be_bytes (count : nat) (x : Z) : list Z :=
  map (fun i => Z.land (Z.shiftr x (8 * Z.of_nat i)) 255) (rev (seq 0 count)).

Definition pad (msg : list Z) : list Z :=
  let len := Z.of_nat (length msg) in
  let zeros := Z.to_nat ((55 - len) mod 64) in
  msg ++ [128] ++ repeat 0 zeros ++ be_bytes 8 (8 * len).

(** Big-endian 32-bit words of a byte sequence. *)
Fixpoint words (bytes : list Z) : list Z :=
  match bytes with
  | b0 :: b1 :: b2 :: b3 :: rest =>
      (Z.lor (Z.shiftl b0 24)
         (Z.lor (Z.shiftl b1 16) (Z.lor (Z.shiftl b2 8) b3)))
      :: words rest
  | _ => []
  end.

(** One round: [k] is the round constant, [wt] the schedule word. *)
Definition round (s : state) (k wt : Z) : state :=
  let t1 := add32 (add32 (add32 (add32 (sh s) (Sigma1 (se s)))
                                (Ch (se s) (sf s) (sg s))) k) wt in
  let t2 := add32 (Sigma0 (sa s)) (Maj (sa s) (sb s) (sc s)) in
  {| sa := add32 t1 t2; sb := sa s; sc := sb s; sd := sc s;
     se := add32 (sd s) t1; sf := se s; sg := sf s; sh := sg s |}.

(** The rounds of one block.  [w] holds the sixteen schedule words
    W(t), ..., W(t+15); the next one is
    sigma1 W(t+14) + W(t+9) + sigma0 W(t+1) + W(t). *)
Fixpoint rounds (ks : list Z) (w : list Z) (s : state) : state :=
  match ks with
  | [] => s
  | k :: ks' =>
      let wt := nth 0 w 0 in
      let next :=
        add32 (add32 (add32 (sigma1 (nth 14 w 0)) (nth 9 w 0))
                     (sigma0 (nth 1 w 0))) wt in
      rounds ks' (tl w ++ [next]) (round s k wt)
  end.

Definition compress (h : state) (block : list Z) : state :=
  let s := rounds K block h in
  {| sa := add32 (sa h) (sa s); sb := add32 (sb h) (sb s);
     sc := add32 (sc h) (sc s); sd := add32 (sd h) (sd s);
     se := add32 (se h) (se s); sf := add32 (sf h) (sf s);
     sg := add32 (sg h) (sg s); sh := add32 (sh h) (sh s) |}.

(** The blocks of sixteen words, folded from the left. *)
Fixpoint blocks (fuel : nat) (h : state) (ws : list Z) : state :=
  match fuel with
  | O => h
  | S fuel' =>
      match ws with
      | [] => h
      | _ => blocks fuel' (compress h (take 16 ws)) (drop 16 ws)
      end
  end.

Definition digest (msg : list Z) : state :=
  let ws := words (pad msg) in
  blocks (length ws) H0 ws.

Definition hex_digit (n : Z) : ascii :=
  nth (Z.to_nat (Z.land n 15)) (Py.chars "0123456789abcdef") "0"%char.

Definition hex_word (x : Z) : list ascii :=
  [ hex_digit (Z.shiftr x 28); hex_digit (Z.shiftr x 24);
    hex_digit (Z.shiftr x 20); hex_digit (Z.shiftr x 16);
    hex_digit (Z.shiftr x 12); hex_digit (Z.shiftr x 8);
    hex_digit (Z.shiftr x 4); hex_digit x ].

(** [hashlib.sha256(msg).hexdigest()]: sixty-four lower-case hexadecimal
    digits. *)
Definition hexdigest (msg : list Z) : string :=
  let h := digest msg in
  Py.of_chars (flat_map hex_word
                 [sa h; sb h; sc h; sd h; se h; sf h; sg h; sh h]).

End SHA256.

(** *** Content-addressed identifiers *)

Definition hash_text (text : string) : string :=
  Py.of_chars (take 16 (Py.chars (SHA256.hexdigest (utf8_encode text)))).

(** The metadata dict of an item: [source], [chunk_id] and [text]. *)
Record ItemMeta :=
  { meta_source : string; meta_chunk_id : nat; meta_text : string }.

(** An item: the tuple (id, text, metadata). *)
Record Item := { item_id : string; item_text : string; item_meta : ItemMeta }.

(** The loop of [build_items] from position [idx] on. *)
Fixpoint build_items_from (file_path : Pathlib.Path) (idx : nat)
    (chunks : list string) : list Item :=
  match chunks with
  | [] => []
  | chunk :: rest =>
      let cid := Pathlib.name file_path +:+ "-" +:+ Py.str_of_nat idx
                 +:+ "-" +:+ hash_text chunk in
      {| item_id := cid;
         item_text := chunk;
         item_meta := {| meta_source := file_path;
                         meta_chunk_id := idx;
                         meta_text := chunk |} |}
      :: build_items_from file_path (S idx) rest
  end.

Definition build_items (file_path : Pathlib.Path) (chunks : list string)
  : list Item :=
  build_items_from file_path 0 chunks.

(** *** The chunker

    [chunk_text] configures langchain's [RecursiveCharacterTextSplitter]
    (chunk size 1200, overlap 150, separators paragraph break, line break,
    space, empty) and returns its [split_text].  The splitter is library code
    that [ingest.py] imports; it is written out here after the library's
    [text_splitter] module ([_split_text_with_regex], [_join_docs],
    [_merge_splits], [_split_text]), with the options [chunk_text] leaves at
    their defaults: [keep_separator=True], [is_separator_regex=False],
    [strip_whitespace=True], [length_function=len].  Inside the module a text
    is its list of characters. *)
Module Splitter.

Record RecursiveCharacterTextSplitter :=
  { chunk_size : nat; chunk_overlap : nat; separators : list (list ascii) }.

(** [re.split] on a literal, non-empty separator: the texts between the
    successive, non-overlapping occurrences of [sep], leftmost first.
    [skip] counts the characters of a matched separator still to pass, and
    [cur] is the field being read, most recent character first. *)
Fixpoint fields (sep : list ascii) (skip : nat) (cur : list ascii)
    (l : list ascii) : list (list ascii) :=
  match l with
  | [] => [rev cur]
  | c :: l' =>
      match skip with
      | S k => fields sep k cur l'
      | O =>
          if Py.starts_with sep l
          then rev cur :: fields sep (length sep - 1) [] l'
          else fields sep 0 (c :: cur) l'
      end
  end.

(** With [keep_separator] each separator stays at the start of the piece
    that follows it; with the empty separator the pieces are the single
    characters; empty pieces are dropped. *)
Definition _split_text_with_regex (text separator : list ascii)
  : list (list ascii) :=
  let splits :=
    match separator with
    | [] => map (fun c => [c]) text
    | _ =>
        match fields separator 0 [] text with
        | [] => []
        | first :: others => first :: map (app separator) others
        end
    end in
  List.filter Py.truthy splits.

(** [separator.join(docs)] on character lists. *)
Fixpoint join (separator : list ascii) (docs : list (list ascii))
  : list ascii :=
  match docs with
  | [] => []
  | [d] => d
  | d :: rest => d ++ separator ++ join separator rest
  end.

(** [_join_docs]: the joined text, stripped; [None] when nothing is
    left. *)
Definition _join_docs (docs : list (list ascii)) (separator : list ascii)
  : option (list ascii) :=
  let text := Py.strip_chars (join separator docs) in
  if Py.truthy text then Some text else None.

(** [docs.append(doc)] when [doc] is not [None]. *)
Definition append_doc (docs : list (list ascii)) (doc : option (list ascii))
  : list (list ascii) :=
  match doc with
  | Some d => docs ++ [d]
  | None => docs
  end.

Section Merge.
Variable self : RecursiveCharacterTextSplitter.
Variable separator : list ascii.

Let separator_len : nat := length separator.

(** The [while] loop of [_merge_splits]: pieces are popped from the
    front while the running total exceeds the overlap, or while the next
    piece, of length [_len], still does not fit.  The source indexes
    [current_doc[0]] without a test: [total] is the length of
    [current_doc] joined, so on an empty [current_doc] it is 0, the
    condition is false and the loop has stopped (the checked loops
    below make this precise). *)
Fixpoint pop_front (_len : nat) (current_doc : list (list ascii))
    (total : nat) : list (list ascii) * nat :=
  match current_doc with
  | [] => ([], total)
  | first :: rest =>
      if (chunk_overlap self <? total)
         || ((chunk_size self
              <? total + _len
                 + (if 0 <? length current_doc then separator_len else 0))
             && (0 <? total))
      then pop_front _len rest
             (total - (length first
                       + (if 1 <? length current_doc
                          then separator_len else 0)))
      else (current_doc, total)
  end.

(** The [for] loop of [_merge_splits]. *)
Fixpoint merge_loop (splits docs current_doc : list (list ascii))
    (total : nat) : list (list ascii) :=
  match splits with
  | [] => append_doc docs (_join_docs current_doc separator)
  | d :: splits' =>
      let _len := length d in
      let '(docs, current_doc, total) :=
        if (chunk_size self
            <? total + _len
               + (if 0 <? length current_doc then separator_len else 0))
           && (0 <? length current_doc)
        then
          let docs := append_doc docs (_join_docs current_doc separator) in
          let '(current_doc, total) := pop_front _len current_doc total in
          (docs, current_doc, total)
        else (docs, current_doc, total) in
      let current_doc := current_doc ++ [d] in
      let total :=
        total + _len
        + (if 1 <? length current_doc then separator_len else 0) in
      merge_loop splits' docs current_doc total
  end.

Definition _merge_splits (splits : list (list ascii))
  : list (list ascii) :=
  merge_loop splits [] [] 0.

(** The two loops once more, with the indexing [current_doc[0]] of the
    [while] loop checked: [None] stands for the IndexError that an empty
    [current_doc] would raise there. *)
Fixpoint pop_front_checked (_len : nat) (current_doc : list (list ascii))
    (total : nat) : option (list (list ascii) * nat) :=
  if (chunk_overlap self <? total)
     || ((chunk_size self
          <? total + _len
             + (if 0 <? length current_doc then separator_len else 0))
         && (0 <? total))
  then
    match current_doc with
    | [] => None
    | first :: rest =>
        pop_front_checked _len rest
          (total - (length first
                    + (if 1 <? length current_doc
                       then separator_len else 0)))
    end
  else Some (current_doc, total).

Fixpoint merge_loop_checked (splits docs current_doc : list (list ascii))
    (total : nat) : option (list (list ascii)) :=
  match splits with
  | [] => Some (append_doc docs (_join_docs current_doc separator))
  | d :: splits' =>
      let _len := length d in
      let continue docs current_doc total :=
        let current_doc := current_doc ++ [d] in
        let total :=
          total + _len
          + (if 1 <? length current_doc then separator_len else 0) in
        merge_loop_checked splits' docs current_doc total in
      if (chunk_size self
          <? total + _len
             + (if 0 <? length current_doc then separator_len else 0))
         && (0 <? length current_doc)
      then
        let docs := append_doc docs (_join_docs current_doc separator) in
        match pop_front_checked _len current_doc total with
        | Some (current_doc, total) => continue docs current_doc total
        | None => None
        end
      else continue docs current_doc total
  end.

End Merge.

Section Split.
Variable self : RecursiveCharacterTextSplitter.

(** The loop of [_split_text] over the pieces: pieces shorter than the
    chunk size are collected and merged; a longer piece is split again
    with the remaining separators ([recurse]), or kept as it is when
    there are none ([has_new_separators] false). *)
Fixpoint split_loop (has_new_separators : bool)
    (recurse : list ascii -> list (list ascii))
    (splits _good_splits final_chunks : list (list ascii))
  : list (list ascii) :=
  match splits with
  | [] =>
      if Py.truthy _good_splits
      then final_chunks ++ _merge_splits self [] _good_splits
      else final_chunks
  | s :: splits' =>
      if length s <? chunk_size self
      then split_loop has_new_separators recurse splits'
             (_good_splits ++ [s]) final_chunks
      else
        let final_chunks :=
          if Py.truthy _good_splits
          then final_chunks ++ _merge_splits self [] _good_splits
          else final_chunks in
        let final_chunks :=
          if has_new_separators
          then final_chunks ++ recurse s
          else final_chunks ++ [s] in
        split_loop has_new_separators recurse splits' [] final_chunks
  end.

(** [_split_text]: the first separator that is empty or occurs in the
    text is used, and the ones after it remain for the oversize pieces;
    when none qualifies the last separator is used and none remain. *)
Fixpoint _split_text (separators : list (list ascii)) (text : list ascii)
  : list (list ascii) :=
  match separators with
  | [] => []
  | _s :: rest =>
      if negb (Py.truthy _s) then
        split_loop false (fun _ => [])
          (_split_text_with_regex text _s) [] []
      else if Py.occurs _s text then
        split_loop (Py.truthy rest) (_split_text rest)
          (_split_text_with_regex text _s) [] []
      else
        match rest with
        | [] =>
            split_loop false (fun _ => [])
              (_split_text_with_regex text _s) [] []
        | _ => _split_text rest text
        end
  end.

Definition split_text (text : list ascii) : list (list ascii) :=
  _split_text (separators self) text.

End Split.

End Splitter.

Definition splitter : Splitter.RecursiveCharacterTextSplitter :=
  {| Splitter.chunk_size := 1200;
     Splitter.chunk_overlap := 150;
     Splitter.separators :=
       [ Py.chars (Py.nl +:+ Py.nl); Py.chars Py.nl; Py.chars " "; [] ] |}.

Definition chunk_text (text : string) : list string :=
  map Py.of_chars (Splitter.split_text splitter (Py.chars text)).

(** *** The chunker, specified *)

(** Section 8 of the specification: the chunks, with the declared overlap
    removed from the start of every chunk but the first, concatenated. *)
Definition remove_overlaps (overlap : nat) (chunks : list string) : string :=
  match chunks with
  | [] => ""
  | first :: others =>
      Py.of_chars
        (Py.chars first
         ++ concat (map (fun chunk => drop overlap (Py.chars chunk)) others))
  end.

(** What a text that fits in one chunk is split into: its stripped form, or
    nothing when it is blank. *)
Definition single_chunk (text : list ascii) : list (list ascii) :=
  if Py.truthy (Py.strip_chars text) then [Py.strip_chars text] else [].

(** Some separator of the list is empty, so that the search for a separator
    always ends on one that applies. *)
Definition has_empty (seps : list (list ascii)) : bool :=
  existsb (fun s => negb (Py.truthy s)) seps.

(** Windows.  A chunk is a window of the text with the whitespace at its two
    ends removed.  The functions below are the loops of the splitter again,
    recording each window before it is stripped, paired with the number of
    characters at its start that it repeats from the window before it. *)
Module Windows.
Import Splitter.

Definition window : Type := nat * list ascii.

(** The chunk a window gives: its stripped text, unless that is empty. *)
Definition chunk_of (w : window) : option (list ascii) :=
  let text := Py.strip_chars (snd w) in
  if Py.truthy text then Some text else None.

Definition chunks_of (ws : list window) : list (list ascii) :=
  omap chunk_of ws.

(** The windows with the repeated characters removed, concatenated. *)
Definition unstitch (ws : list window) : list ascii :=
  concat (map (fun w : window => drop (fst w) (snd w)) ws).

(** Every window repeats at most [limit] characters, and those are the
    last characters of the window before it ([prev] for the first). *)
Fixpoint stitched (limit : nat) (prev : list ascii) (ws : list window)
  : Prop :=
  match ws with
  | [] => True
  | (o, w) :: rest =>
      o <= limit /\ o <= length prev /\ o <= length w
      /\ take o w = drop (length prev - o) prev
      /\ stitched limit w rest
  end.

(** The text of the last window ([prev] when there is none). *)
Fixpoint last_body (prev : list ascii) (ws : list window) : list ascii :=
  match ws with
  | [] => prev
  | (_, w) :: rest => last_body w rest
  end.

Section Loops.
Variable self : RecursiveCharacterTextSplitter.

(** The loop of [_merge_splits] with the empty separator; [carry] is the
    length of what [current_doc] retains from the window emitted
    last. *)
Fixpoint merge_windows (splits : list (list ascii)) (ws : list window)
    (current_doc : list (list ascii)) (total carry : nat)
  : list window :=
  match splits with
  | [] => ws ++ [(carry, concat current_doc)]
  | d :: splits' =>
      let _len := length d in
      let '(ws, current_doc, total, carry) :=
        if (chunk_size self <? total + _len) && (0 <? length current_doc)
        then
          let '(kept, total') := pop_front self [] _len current_doc total in
          (ws ++ [(carry, concat current_doc)], kept, total', total')
        else (ws, current_doc, total, carry) in
      merge_windows splits' ws (current_doc ++ [d]) (total + _len) carry
  end.

(** The loop of [_split_text] over the pieces. *)
Fixpoint split_loop_windows (recurse : list ascii -> list window)
    (splits _good_splits : list (list ascii)) (final : list window)
  : list window :=
  match splits with
  | [] =>
      if Py.truthy _good_splits
      then final ++ merge_windows _good_splits [] [] 0 0
      else final
  | s :: splits' =>
      if length s <? chunk_size self
      then split_loop_windows recurse splits' (_good_splits ++ [s]) final
      else
        let final :=
          if Py.truthy _good_splits
          then final ++ merge_windows _good_splits [] [] 0 0
          else final in
        split_loop_windows recurse splits' [] (final ++ recurse s)
  end.

(** An oversize piece kept as it is. *)
Definition whole (s : list ascii) : list window := [(0, s)].

Fixpoint _split_windows (separators : list (list ascii))
    (text : list ascii) : list window :=
  match separators with
  | [] => []
  | _s :: rest =>
      if negb (Py.truthy _s) then
        split_loop_windows whole (_split_text_with_regex text _s) [] []
      else if Py.occurs _s text then
        split_loop_windows
          (match rest with [] => whole | _ => _split_windows rest end)
          (_split_text_with_regex text _s) [] []
      else
        match rest with
        | [] =>
            split_loop_windows whole
              (_split_text_with_regex text _s) [] []
        | _ => _split_windows rest text
        end
  end.

End Loops.

End Windows.

(** The windows of a text under the configuration of [chunk_text]. *)
Definition chunk_windows (text : string) : list Windows.window :=
  Windows._split_windows splitter (Splitter.separators splitter)
    (Py.chars text).

(** *** Ingesting one file *)

(** The body of the loop of [main] (and of the upload handler): extract,
    chunk, build the items. *)
Definition items_of_file (fs : files) (file_path : Pathlib.Path)
  : result (list Item) :=
  match file_to_text fs file_path with
  | Success text => Success (build_items file_path (chunk_text text))
  | Failure e => Failure e
  end.

(** A lower-case hexadecimal digit. *)
Definition is_hex_digit (c : ascii) : bool :=
  existsb (Ascii.eqb c) (Py.chars "0123456789abcdef").

(** A text of 1400 characters: two hundred times the word "abcdef" followed
    by a space. *)
Definition two_hundred_words : string :=
  Py.of_chars (concat (repeat (Py.chars "abcdef ") 200)).

(** A file system with one text file and one PDF of three pages, the second
    without text. *)
Definition demo_files : files :=
  {| pdf_pages := fun path =>
       if String.eqb path "docs/report.PDF"
       then inl [Some "page one"; None; Some "page three"]
       else inr "no such file";
     read_text := fun path =>
       if String.eqb path "docs/notes.txt"
       then inl "remember the milk"
       else inr "no such file" |}.

(** The same file system later: the PDF is gone and a file was added, the
    text file is unchanged. *)
Definition demo_files_later : files :=
  {| pdf_pages := fun _ => inr "no such file";
     read_text := fun path =>
       if String.eqb path "docs/notes.txt"
       then inl "remember the milk"
       else if String.eqb path "docs/new.md"
            then inl "to do"
            else inr "no such file" |}.

(** * Properties *)

(** ** Strings *)

Module PyFacts.
Import Py.

Lemma chars_of_chars l : chars (of_chars l) = l.
Proof. apply list_ascii_of_string_of_list_ascii. Qed.

Lemma of_chars_chars s : of_chars (chars s) = s.
Proof. apply string_of_list_ascii_of_string. Qed.

Lemma chars_inj s t : chars s = chars t -> s = t.
Proof.
  intros H. rewrite <- (of_chars_chars s), <- (of_chars_chars t). now rewrite H.
Qed.

Lemma in_list_In x xs : in_list x xs = true <-> In x xs.
Proof.
  unfold in_list. rewrite existsb_exists. split.
  - intros (y & Hy & E). apply String.eqb_eq in E. now subst.
  - intros H. exists x. split; [assumption | apply String.eqb_refl].
Qed.

(** Lower-casing never turns a character into or out of whitespace. *)
Lemma isspace_lower_char c : isspace (lower_char c) = isspace c.
Proof.
  destruct c as [[] [] [] [] [] [] [] []]; vm_compute; reflexivity.
Qed.

(** *** Slices *)

Lemma starts_with_spec w l :
  starts_with w l = true <-> exists post, l = w ++ post.
Proof.
  revert l. induction w as [|a w IH]; intros l; simpl.
  - split; [intros _; now exists l | reflexivity].
  - destruct l as [|b l].
    + split; [discriminate | intros (post & E); discriminate].
    + rewrite andb_true_iff, IH, Ascii.eqb_eq. split.
      * intros (-> & post & ->). now exists post.
      * intros (post & E). injection E as -> ->. split; [reflexivity | now exists post].
Qed.

Lemma occurs_spec w l :
  occurs w l = true <-> exists pre post, l = pre ++ w ++ post.
Proof.
  induction l as [|c l IH].
  - simpl. rewrite orb_false_r, starts_with_spec. split.
    + intros (post & E). now exists [], post.
    + intros (pre & post & E). destruct pre; [now exists post |discriminate].
  - cbn [occurs]. rewrite orb_true_iff, starts_with_spec, IH. split.
    + intros [(post & E) | (pre & post & E)].
      * now exists [], post.
      * exists (c :: pre), post. now rewrite E.
    + intros (pre & post & E). destruct pre as [|c' pre].
      * left. now exists post.
      * right. injection E as -> ->. now exists pre, post.
Qed.

(** *** Stripping *)

Lemma lstrip_decompose l :
  exists ws, l = ws ++ lstrip_chars l /\ forallb isspace ws = true.
Proof.
  induction l as [|c l (ws & E & Hws)]; simpl.
  - now exists [].
  - unfold lstrip_chars. simpl. destruct (isspace c) eqn:Hc.
    + exists (c :: ws). simpl. rewrite Hc, Hws. split; [now f_equal | reflexivity].
    + now exists [].
Qed.

Lemma rstrip_decompose l :
  exists ws, l = rstrip_chars l ++ ws /\ forallb isspace ws = true.
Proof.
  destruct (lstrip_decompose (rev l)) as (ws & E & Hws).
  exists (rev ws). split.
  - unfold rstrip_chars. fold (lstrip_chars (rev l)).
    rewrite <- rev_app_distr, <- E. now rewrite rev_involutive.
  - rewrite forallb_forall in *. intros x Hx. apply Hws. now apply in_rev.
Qed.

Lemma strip_decompose l :
  exists ws1 ws2, l = ws1 ++ strip_chars l ++ ws2
    /\ forallb isspace ws1 = true /\ forallb isspace ws2 = true.
Proof.
  destruct (lstrip_decompose l) as (ws1 & E1 & H1).
  destruct (rstrip_decompose (lstrip_chars l)) as (ws2 & E2 & H2).
  exists ws1, ws2. unfold strip_chars. now rewrite <- E2.
Qed.

(** *** Tokens *)

Lemma split_chars_spaces cur ws :
  forallb isspace ws = true ->
  split_chars cur ws = match cur with [] => [] | _ => [rev cur] end.
Proof.
  revert cur. induction ws as [|c ws IH]; intros cur H; simpl in *.
  - reflexivity.
  - apply andb_true_iff in H as [Hc Hws]. rewrite Hc.
    destruct cur; rewrite (IH [] Hws); reflexivity.
Qed.

Lemma split_chars_app_spaces cur l ws :
  forallb isspace ws = true ->
  split_chars cur (l ++ ws) = split_chars cur l.
Proof.
  intros Hws. revert cur. induction l as [|c l IH]; intros cur; simpl.
  - now apply split_chars_spaces.
  - destruct (isspace c); [destruct cur|]; now rewrite IH.
Qed.

Lemma split_chars_spaces_app ws l :
  forallb isspace ws = true ->
  split_chars [] (ws ++ l) = split_chars [] l.
Proof.
  induction ws as [|c ws IH]; intros H; simpl in *; [reflexivity|].
  apply andb_true_iff in H as [Hc Hws]. rewrite Hc. now apply IH.
Qed.

Lemma split_chars_strip l :
  split_chars [] (strip_chars l) = split_chars [] l.
Proof.
  destruct (strip_decompose l) as (ws1 & ws2 & E & H1 & H2).
  rewrite E at 2.
  now rewrite split_chars_spaces_app, split_chars_app_spaces.
Qed.

(** The number of tokens depends only on where the whitespace is. *)
Lemma split_chars_length_lower cur l :
  length (split_chars (map lower_char cur) (map lower_char l))
  = length (split_chars cur l).
Proof.
  revert cur. induction l as [|c l IH]; intros cur; simpl.
  - destruct cur; reflexivity.
  - rewrite isspace_lower_char. destruct (isspace c).
    + pose proof (IH []) as IH0. simpl in IH0.
      destruct cur; simpl; now rewrite IH0.
    + apply (IH (c :: cur)).
Qed.

Lemma split_strip_lower_length s :
  length (split (strip (lower s))) = length (split s).
Proof.
  unfold split, strip, lower. rewrite !length_map, !chars_of_chars.
  rewrite split_chars_strip. apply (split_chars_length_lower []).
Qed.

(** *** Slices of a stripped text *)

Lemma starts_with_nonspace_head w c l :
  w <> [] -> forallb (fun a => negb (isspace a)) w = true ->
  isspace c = true -> starts_with w (c :: l) = false.
Proof.
  intros Hne Hw Hc. destruct w as [|a w]; [congruence|]. simpl in *.
  apply andb_true_iff in Hw as [Ha _].
  destruct (Ascii.eqb a c) eqn:E; [|reflexivity].
  apply Ascii.eqb_eq in E. subst. rewrite Hc in Ha. discriminate.
Qed.

Lemma occurs_spaces_app w ws l :
  w <> [] -> forallb (fun a => negb (isspace a)) w = true ->
  forallb isspace ws = true ->
  occurs w (ws ++ l) = occurs w l.
Proof.
  intros Hne Hw. induction ws as [|c ws IH]; intros H; simpl in *; [reflexivity|].
  apply andb_true_iff in H as [Hc Hws].
  pose proof (starts_with_nonspace_head w c (ws ++ l) Hne Hw Hc) as E.
  simpl in E. rewrite E. now apply IH.
Qed.

Lemma starts_with_app_spaces w l ws :
  forallb (fun a => negb (isspace a)) w = true ->
  forallb isspace ws = true ->
  starts_with w (l ++ ws) = starts_with w l.
Proof.
  intros Hw Hws. revert l. induction w as [|a w IH]; intros l; [reflexivity|].
  simpl in Hw. apply andb_true_iff in Hw as [Ha Hw].
  destruct l as [|b l]; simpl.
  - destruct ws as [|c ws]; [reflexivity|]. simpl in Hws.
    apply andb_true_iff in Hws as [Hc _].
    destruct (Ascii.eqb a c) eqn:E; [|reflexivity].
    apply Ascii.eqb_eq in E. subst. rewrite Hc in Ha. discriminate.
  - now rewrite IH.
Qed.

Lemma occurs_app_spaces w l ws :
  w <> [] -> forallb (fun a => negb (isspace a)) w = true ->
  forallb isspace ws = true ->
  occurs w (l ++ ws) = occurs w l.
Proof.
  intros Hne Hw Hws. induction l as [|c l IH].
  - rewrite app_nil_l, <- (app_nil_r ws) at 1.
    rewrite (occurs_spaces_app w ws [] Hne Hw Hws). reflexivity.
  - cbn [app occurs]. rewrite IH.
    rewrite <- (starts_with_app_spaces w (c :: l) ws Hw Hws). reflexivity.
Qed.

(** A word without whitespace occurs in a text exactly when it occurs in
    the stripped text. *)
Lemma occurs_strip w l :
  w <> [] -> forallb (fun a => negb (isspace a)) w = true ->
  occurs w (strip_chars l) = occurs w l.
Proof.
  intros Hne Hw.
  destruct (strip_decompose l) as (ws1 & ws2 & E & H1 & H2).
  rewrite E at 2.
  now rewrite occurs_spaces_app, occurs_app_spaces.
Qed.

End PyFacts.

(** ** The classifier *)

Module ClassifierFacts.
Import Py PyFacts.

Lemma chars_append s t : chars (s +:+ t) = chars s ++ chars t.
Proof.
  unfold chars. induction s as [|c s IH]; simpl; [reflexivity | now rewrite IH].
Qed.

Lemma of_chars_app l k : of_chars (l ++ k) = of_chars l +:+ of_chars k.
Proof.
  unfold of_chars. induction l as [|c l IH]; simpl; [reflexivity | now rewrite IH].
Qed.

Lemma contains_is_slice w s : contains w s = true <-> is_slice w s.
Proof.
  unfold contains, is_slice. rewrite occurs_spec. split.
  - intros (pre & post & E). exists (of_chars pre), (of_chars post).
    apply chars_inj. rewrite !chars_append, !chars_of_chars. exact E.
  - intros (pre & post & ->). exists (chars pre), (chars post).
    now rewrite !chars_append.
Qed.

Lemma exists_filler (P : string -> bool) :
  existsb P filler_words = true <->
  exists word, In word filler_words /\ P word = true.
Proof. apply existsb_exists. Qed.

(** Every filler word is non-empty and free of whitespace. *)
Lemma filler_word_solid word :
  In word filler_words ->
  chars word <> [] /\ forallb (fun a => negb (isspace a)) (chars word) = true.
Proof.
  unfold filler_words. simpl.
  intros [<-|[<-|[<-|[<-|[<-|[<-|[]]]]]]]; split;
    solve [discriminate | vm_compute; reflexivity].
Qed.

Lemma contains_strip word s :
  In word filler_words ->
  contains word (strip s) = contains word s.
Proof.
  intros Hw. destruct (filler_word_solid word Hw) as [Hne Hsolid].
  unfold contains, strip. rewrite chars_of_chars.
  now apply occurs_strip.
Qed.

Lemma general_unfold message :
  _is_general_conversation message =
  in_list (strip (lower message)) greetings
  || ((length (split message) <=? 2)
      && existsb (fun word => contains word (strip (lower message)))
           filler_words).
Proof.
  unfold _is_general_conversation.
  destruct (in_list _ greetings); [reflexivity|].
  now destruct (_ && _).
Qed.

End ClassifierFacts.

(** ** Running the pipeline *)

Section PipelineFacts.
Variable svc : services.
Variable self : RAGChain.

Lemma Qgtb_lt x y : Qgtb x y = true <-> (y < x)%Q.
Proof. unfold Qgtb, Qlt. apply Z.ltb_lt. Qed.

Lemma truthy_filter {A} (p : A -> bool) (l : list A) :
  Py.truthy (List.filter p l) = existsb p l.
Proof.
  induction l as [|x l IH]; simpl; [reflexivity|].
  destruct (p x); simpl; [reflexivity | exact IH].
Qed.

(** The assembled context of a non-empty match list is never blank: it
    begins with the header of the first match. *)
Lemma build_context_head d ds :
  exists rest, Py.chars (_build_context (d :: ds)) = "S"%char :: rest.
Proof.
  unfold _build_context. cbn [flat_map app Py.join].
  destruct (flat_map _ ds); cbn; eexists; reflexivity.
Qed.

Lemma build_context_not_blank d ds :
  Py.truthy_str (Py.strip (_build_context (d :: ds))) = true.
Proof.
  unfold Py.truthy_str. apply negb_true_iff, String.eqb_neq.
  intros E. apply (f_equal Py.chars) in E.
  unfold Py.strip in E. rewrite PyFacts.chars_of_chars in E.
  destruct (PyFacts.strip_decompose (Py.chars (_build_context (d :: ds))))
    as (ws1 & ws2 & Hd & H1 & H2).
  destruct (build_context_head d ds) as (rest & Hhead).
  rewrite E, Hhead in Hd. change (Py.chars "") with (@nil ascii) in Hd.
  rewrite app_nil_l in Hd.
  assert (Hall : forallb Py.isspace ("S"%char :: rest) = true).
  { rewrite Hd. rewrite forallb_app. now rewrite H1, H2. }
  cbn in Hall. discriminate.
Qed.

Lemma query_run message top_k namespace log :
  query svc (vectorstore self) message top_k namespace log =
  (Ok (retrieved_matches svc self message top_k namespace),
   log ++ [ EmbeddingsCreate (embedding_model (vectorstore self)) [message];
            IndexQuery (embed_one svc (embedding_model (vectorstore self)) message)
              top_k true (Py.str_or namespace "default") ]).
Proof.
  unfold query, embed_texts, openai_embeddings_create, pinecone_index_query,
    bind, emit, ret, retrieved_matches. simpl.
  now rewrite <- app_assoc.
Qed.

Lemma invoke_general message history top_k namespace log :
  _is_general_conversation message = true ->
  invoke svc self message history top_k namespace log =
  (Ok {| answer := chat_create svc (chat_model self)
                     (sent_messages message history) (1 # 5);
         citations := [] |},
   log ++ [ ChatCompletionsCreate (chat_model self)
              (sent_messages message history) (1 # 5) ]).
Proof.
  intros Hg. unfold invoke. rewrite Hg.
  unfold bind, ret, openai_chat_create, emit, sent_messages. reflexivity.
Qed.

Lemma invoke_retrieval message history top_k namespace log :
  _is_general_conversation message = false ->
  let retrieved := retrieved_matches svc self message top_k namespace in
  let messages :=
    sent_messages (retrieval_user_content retrieved message) history in
  invoke svc self message history top_k namespace log =
  (Ok {| answer := chat_create svc (chat_model self) messages (1 # 5);
         citations := map citation retrieved |},
   log ++ [ EmbeddingsCreate (embedding_model (vectorstore self)) [message];
            IndexQuery (embed_one svc (embedding_model (vectorstore self)) message)
              top_k true (Py.str_or namespace "default");
            ChatCompletionsCreate (chat_model self) messages (1 # 5) ]).
Proof.
  intros Hg retrieved messages. unfold invoke. rewrite Hg.
  unfold bind at 1. unfold bind at 1. rewrite query_run.
  fold retrieved. rewrite truthy_filter.
  unfold messages, retrieval_user_content, sent_messages.
  destruct (existsb _ retrieved) eqn:Hex.
  - assert (Hnb : Py.truthy_str (Py.strip (_build_context retrieved)) = true).
    { destruct retrieved as [|d ds]; [discriminate | apply build_context_not_blank]. }
    rewrite Hnb. cbn [andb]. unfold ret, openai_chat_create, bind, emit.
    rewrite <- app_assoc. reflexivity.
  - cbn [andb]. unfold ret, openai_chat_create, bind, emit.
    rewrite <- app_assoc. reflexivity.
Qed.

Lemma chat_calls_app l k : chat_calls (l ++ k) = chat_calls l ++ chat_calls k.
Proof. unfold chat_calls. apply flat_map_app. Qed.

End PipelineFacts.

(** ** The classifier, as specified *)

(** C4. [_is_general_conversation] answers true exactly when, on the trimmed
    and lower-cased message, (a) the message is one of the greeting phrases,
    or (b) it has at most two whitespace-delimited tokens and one of the
    filler words occurs in it; it accepts "hello" and rejects the question
    about section 3 of the contract. *)
Theorem is_general_conversation_characterised :
  (forall message,
      _is_general_conversation message = true
      <-> isGeneralConversation_spec message)
  /\ _is_general_conversation "hello" = true
  /\ _is_general_conversation
       "What does section 3 of the contract say about termination?" = false.
Proof.
  split; [|split; vm_compute; reflexivity].
  intros message. rewrite ClassifierFacts.general_unfold.
  unfold isGeneralConversation_spec. cbv zeta.
  rewrite orb_true_iff, andb_true_iff, PyFacts.in_list_In.
  rewrite PyFacts.split_strip_lower_length, Nat.leb_le.
  rewrite ClassifierFacts.exists_filler.
  split.
  - intros [Hg | [Hlen (word & Hin & Hc)]]; [now left | right].
    split; [exact Hlen|]. exists word. split; [exact Hin|].
    now apply ClassifierFacts.contains_is_slice.
  - intros [Hg | [Hlen (word & Hin & Hc)]]; [now left | right].
    split; [exact Hlen|]. exists word. split; [exact Hin|].
    now apply ClassifierFacts.contains_is_slice.
Qed.

(** ** The query pipeline *)

(** C6. A message classified as general conversation skips retrieval: the
    only call [invoke] makes is the chat completion, the user content it
    sends is the raw message, and the citations are empty. *)
Theorem general_conversation_skips_retrieval
    (svc : services) (self : RAGChain) (message : string)
    (history : option (list (gmap string string))) (top_k : Z)
    (namespace : option string) (log : list event) :
  _is_general_conversation message = true ->
  exists result rest,
    invoke svc self message history top_k namespace log =
      (Ok result,
       log ++ [ ChatCompletionsCreate (chat_model self)
                  ({| role := "system"; content := SYSTEM_PROMPT |}
                   :: {| role := "user"; content := message |} :: rest)
                  (1 # 5) ])
    /\ citations result = []
    /\ List.filter is_retrieval_call
         (snd (invoke svc self message history top_k namespace log))
       = List.filter is_retrieval_call log.
Proof.
  intros Hg. rewrite (invoke_general svc self message history top_k namespace log Hg).
  eexists. eexists. split; [reflexivity|]. split; [reflexivity|].
  cbn [snd]. rewrite List.filter_app. cbn. apply app_nil_r.
Qed.

(** The message "hi" against the demo services. *)
Lemma general_conversation_skips_retrieval_hi :
  exists result rest,
    invoke demo_services demo_chain "hi" None 5 None [] =
      (Ok result,
       [] ++ [ ChatCompletionsCreate (chat_model demo_chain)
                 ({| role := "system"; content := SYSTEM_PROMPT |}
                  :: {| role := "user"; content := "hi" |} :: rest)
                 (1 # 5) ])
    /\ citations result = []
    /\ List.filter is_retrieval_call
         (snd (invoke demo_services demo_chain "hi" None 5 None []))
       = List.filter is_retrieval_call [].
Proof.
  apply (general_conversation_skips_retrieval
           demo_services demo_chain "hi" None 5%Z None []).
  vm_compute. reflexivity.
Defined.

(** C10. The filler-word test is slice containment on the lower-cased
    message: a message of at most two tokens in which "hi", "hello", "hey",
    "ok", "yes" or "no" occurs anywhere, even inside a word, is classified as
    general conversation, and [invoke] then makes no retrieval call.  So are
    "which one?" (it contains "hi") and "broken link" (it contains "ok"). *)
Theorem filler_inside_word_is_general
    (svc : services) (self : RAGChain) (message : string)
    (history : option (list (gmap string string))) (top_k : Z)
    (namespace : option string) (log : list event) :
  length (Py.split message) <= 2 ->
  (exists word, In word filler_words /\ is_slice word (Py.lower message)) ->
  _is_general_conversation message = true
  /\ (exists messages,
        snd (invoke svc self message history top_k namespace log)
        = log ++ [ChatCompletionsCreate (chat_model self) messages (1 # 5)])
  /\ is_slice "hi" (Py.lower "which one?")
  /\ is_slice "ok" (Py.lower "broken link").
Proof.
  intros Hlen (word & Hin & Hslice).
  assert (Hg : _is_general_conversation message = true).
  { rewrite ClassifierFacts.general_unfold.
    apply orb_true_iff. right. apply andb_true_iff. split.
    - now apply Nat.leb_le.
    - apply ClassifierFacts.exists_filler. exists word. split; [exact Hin|].
      rewrite ClassifierFacts.contains_strip by exact Hin.
      now apply ClassifierFacts.contains_is_slice. }
  split; [exact Hg|]. split.
  - rewrite (invoke_general svc self message history top_k namespace log Hg).
    eexists. reflexivity.
  - split.
    + exists "w", "ch one?". reflexivity.
    + exists "br", "en link". reflexivity.
Qed.

(** The message "which one?": two tokens, and "hi" inside "which". *)
Lemma filler_inside_word_is_general_which_one :
  _is_general_conversation "which one?" = true
  /\ (exists messages,
        snd (invoke demo_services demo_chain "which one?" None 5 None [])
        = [] ++ [ChatCompletionsCreate (chat_model demo_chain) messages (1 # 5)])
  /\ is_slice "hi" (Py.lower "which one?")
  /\ is_slice "ok" (Py.lower "broken link").
Proof.
  apply (filler_inside_word_is_general
           demo_services demo_chain "which one?" None 5%Z None []).
  - vm_compute. lia.
  - exists "hi". split.
    + simpl. auto.
    + exists "w", "ch one?". reflexivity.
Defined.

(** C7. On the retrieval path the citations are the projection (id, score,
    source) of the matches the index returned, one per match and in the
    index's order, whatever the scores are, hence also when no match passes
    the 0.3 threshold and the prompt falls back. *)
Theorem citations_mirror_retrieval
    (svc : services) (self : RAGChain) (message : string)
    (history : option (list (gmap string string))) (top_k : Z)
    (namespace : option string) (log : list event) :
  _is_general_conversation message = false ->
  exists result,
    fst (invoke svc self message history top_k namespace log) = Ok result
    /\ citations result
       = map (fun d => {| c_id := m_id d; c_score := m_score d;
                          c_source := m_metadata d !! "source" |})
           (retrieved_matches svc self message top_k namespace)
    /\ citations result
       = map (fun raw => {| c_id := raw_id raw; c_score := raw_score raw;
                            c_source := default ∅ (raw_metadata raw) !! "source" |})
           (index_query svc
              (embed_one svc (embedding_model (vectorstore self)) message)
              top_k (Py.str_or namespace "default")).
Proof.
  intros Hg.
  rewrite (invoke_retrieval svc self message history top_k namespace log Hg).
  eexists. split; [reflexivity|]. cbn [citations]. split.
  - reflexivity.
  - unfold retrieved_matches. rewrite map_map. reflexivity.
Qed.

(** A question against the demo index, whose matches score 1/4 and 1/10:
    the prompt falls back, the citations list both matches. *)
Lemma citations_mirror_retrieval_fallback :
  exists result,
    fst (invoke demo_services demo_chain "what is the refund policy" None 5 None [])
    = Ok result
    /\ citations result
       = map (fun d => {| c_id := m_id d; c_score := m_score d;
                          c_source := m_metadata d !! "source" |})
           (retrieved_matches demo_services demo_chain
              "what is the refund policy" 5 None)
    /\ citations result
       = map (fun raw => {| c_id := raw_id raw; c_score := raw_score raw;
                            c_source := default ∅ (raw_metadata raw) !! "source" |})
           (index_query demo_services
              (embed_one demo_services
                 (embedding_model (vectorstore demo_chain))
                 "what is the refund policy")
              5 (Py.str_or None "default")).
Proof.
  apply (citations_mirror_retrieval
           demo_services demo_chain "what is the refund policy" None 5%Z None []).
  vm_compute. reflexivity.
Defined.

Lemma existsb_relevant (retrieved : list Match) :
  existsb (fun doc => Qgtb (m_score doc) (3 # 10)) retrieved = true
  <-> exists d, In d retrieved /\ relevant d.
Proof.
  rewrite existsb_exists. unfold relevant.
  split; intros (d & Hin & H); exists d; (split; [exact Hin|]);
    now apply Qgtb_lt.
Qed.

(** C5. On the retrieval path only matches scoring above 0.3 justify the
    context.  When no retrieved match scores above 0.3, the user content sent
    to the chat model is the question followed by the fallback note, and the
    assembled context is not part of it; when some match does (the assembled
    context is then never blank), it is the assembled context followed by the
    question. *)
Theorem relevance_gate
    (svc : services) (self : RAGChain) (message : string)
    (history : option (list (gmap string string))) (top_k : Z)
    (namespace : option string) (log : list event) :
  _is_general_conversation message = false ->
  let retrieved := retrieved_matches svc self message top_k namespace in
  let context_text := _build_context retrieved in
  exists user_content rest,
    chat_calls (snd (invoke svc self message history top_k namespace log))
    = chat_calls log
      ++ [ {| role := "system"; content := SYSTEM_PROMPT |}
           :: {| role := "user"; content := user_content |} :: rest ]
    /\ ((forall d, In d retrieved -> ~ relevant d) ->
        user_content
        = "Question: " +:+ message +:+ Py.nl +:+ Py.nl +:+ fallback_note)
    /\ ((exists d, In d retrieved /\ relevant d) ->
        Py.strip context_text <> ""
        /\ user_content
           = "Here's some relevant information from uploaded documents:"
             +:+ Py.nl +:+ Py.nl +:+ context_text +:+ Py.nl +:+ Py.nl
             +:+ "Now, please answer this question: " +:+ message).
Proof.
  intros Hg retrieved context_text.
  rewrite (invoke_retrieval svc self message history top_k namespace log Hg).
  fold retrieved. cbn [snd]. rewrite chat_calls_app.
  exists (retrieval_user_content retrieved message).
  exists (map turn_message (Py.last_n 3 (default [] history))).
  split; [reflexivity|].
  unfold retrieval_user_content. split.
  - intros Hnone.
    destruct (existsb _ retrieved) eqn:Hex; [|reflexivity].
    apply existsb_relevant in Hex as (d & Hin & Hrel).
    exfalso. exact (Hnone d Hin Hrel).
  - intros Hsome. pose proof Hsome as (d & Hin & _).
    apply existsb_relevant in Hsome. rewrite Hsome. split; [|reflexivity].
    destruct retrieved as [|d0 ds] eqn:E; [destruct Hin|].
    pose proof (build_context_not_blank d0 ds) as Hnb.
    unfold Py.truthy_str in Hnb. apply negb_true_iff, String.eqb_neq in Hnb.
    exact Hnb.
Qed.

(** The same question: no match of the demo index scores above 0.3. *)
Lemma relevance_gate_unrelated_content :
  let retrieved :=
    retrieved_matches demo_services demo_chain "what is the refund policy" 5 None in
  let context_text := _build_context retrieved in
  exists user_content rest,
    chat_calls (snd (invoke demo_services demo_chain
                       "what is the refund policy" None 5 None []))
    = chat_calls []
      ++ [ {| role := "system"; content := SYSTEM_PROMPT |}
           :: {| role := "user"; content := user_content |} :: rest ]
    /\ ((forall d, In d retrieved -> ~ relevant d) ->
        user_content
        = "Question: " +:+ "what is the refund policy" +:+ Py.nl +:+ Py.nl
          +:+ fallback_note)
    /\ ((exists d, In d retrieved /\ relevant d) ->
        Py.strip context_text <> ""
        /\ user_content
           = "Here's some relevant information from uploaded documents:"
             +:+ Py.nl +:+ Py.nl +:+ context_text +:+ Py.nl +:+ Py.nl
             +:+ "Now, please answer this question: "
             +:+ "what is the refund policy").
Proof.
  apply (relevance_gate demo_services demo_chain
           "what is the refund policy" None 5%Z None []).
  vm_compute. reflexivity.
Defined.

(** ** The history window *)

Lemma last_n_suffix {A} (n : nat) (xs : list A) :
  xs = take (length xs - n) xs ++ Py.last_n n xs
  /\ length (Py.last_n n xs) = Nat.min n (length xs).
Proof.
  unfold Py.last_n. split.
  - symmetry. apply take_drop.
  - rewrite length_drop. lia.
Qed.

(** C8. Whatever the history, the message sequence sent to the chat model is
    the fixed system instruction, one user message, and then the last three
    turns of the history (all of them when there are fewer), in their
    original order; a turn carrying a role and a content is sent with exactly
    these; the older turns are not sent. *)
Theorem history_window
    (svc : services) (self : RAGChain) (message : string)
    (history : option (list (gmap string string))) (top_k : Z)
    (namespace : option string) (log : list event) :
  exists user_content older kept,
    default [] history = older ++ kept
    /\ length kept = Nat.min 3 (length (default [] history))
    /\ chat_calls (snd (invoke svc self message history top_k namespace log))
       = chat_calls log
         ++ [ [ {| role := "system"; content := SYSTEM_PROMPT |};
                {| role := "user"; content := user_content |} ]
              ++ map turn_message kept ]
    /\ (forall turn r c,
          turn !! "role" = Some r -> turn !! "content" = Some c ->
          turn_message turn = {| role := r; content := c |}).
Proof.
  destruct (last_n_suffix 3 (default [] history)) as [Hsplit Hlen].
  assert (Hturn : forall (turn : gmap string string) r c,
             turn !! "role" = Some r -> turn !! "content" = Some c ->
             turn_message turn = {| role := r; content := c |}).
  { intros turn r c Hr Hc. unfold turn_message. now rewrite Hr, Hc. }
  destruct (_is_general_conversation message) eqn:Hg.
  - exists message.
    exists (take (length (default [] history) - 3) (default [] history)).
    exists (Py.last_n 3 (default [] history)).
    split; [exact Hsplit|]. split; [exact Hlen|]. split; [|exact Hturn].
    rewrite (invoke_general svc self message history top_k namespace log Hg).
    cbn [snd]. rewrite chat_calls_app. reflexivity.
  - exists (retrieval_user_content
              (retrieved_matches svc self message top_k namespace) message).
    exists (take (length (default [] history) - 3) (default [] history)).
    exists (Py.last_n 3 (default [] history)).
    split; [exact Hsplit|]. split; [exact Hlen|]. split; [|exact Hturn].
    rewrite (invoke_retrieval svc self message history top_k namespace log Hg).
    cbn [snd]. rewrite chat_calls_app. reflexivity.
Qed.

(** ** The chunker *)

Module SplitterFacts.
Import Py PyFacts Splitter.

(** *** Splitting keeps every character *)

Lemma starts_with_drop sep l :
  starts_with sep l = true -> l = sep ++ drop (length sep) l.
Proof.
  intros H. apply starts_with_spec in H as (post & ->).
  now rewrite drop_app_length.
Qed.

Lemma fields_rebuild sep l :
  sep <> [] ->
  forall skip cur,
  exists first others,
    fields sep skip cur l = first :: others
    /\ first ++ concat (map (app sep) others) = rev cur ++ drop skip l.
Proof.
  intros Hsep. induction l as [|c l IH]; intros skip cur.
  - exists (rev cur), []. simpl. now rewrite drop_nil.
  - destruct skip as [|k].
    + cbn [fields]. destruct (starts_with sep (c :: l)) eqn:Hs.
      * destruct (IH (length sep - 1) []) as (f & fs & E & R).
        exists (rev cur), (f :: fs). split; [now rewrite E|].
        cbn [map concat]. rewrite <- !app_assoc, R. cbn [rev app drop].
        f_equal. rewrite (starts_with_drop _ _ Hs) at 1.
        destruct sep as [|a sep]; [congruence|].
        cbn [length]. rewrite Nat.sub_succ, Nat.sub_0_r. reflexivity.
      * destruct (IH 0 (c :: cur)) as (f & fs & E & R).
        exists f, fs. split; [exact E|]. rewrite R. cbn [rev drop].
        now rewrite <- app_assoc.
    + cbn [fields]. destruct (IH k cur) as (f & fs & E & R).
      exists f, fs. split; [exact E|]. exact R.
Qed.

Lemma concat_filter_truthy (ls : list (list ascii)) :
  concat (List.filter truthy ls) = concat ls.
Proof.
  induction ls as [|x ls IH]; [reflexivity|].
  destruct x; cbn; [exact IH | now rewrite IH].
Qed.

Lemma concat_singletons (l : list ascii) :
  concat (map (fun c => [c]) l) = l.
Proof. induction l as [|c l IH]; cbn; [reflexivity | now rewrite IH]. Qed.

(** The pieces of a text, in order, make up the text. *)
Lemma split_with_regex_concat text sep :
  concat (_split_text_with_regex text sep) = text.
Proof.
  unfold _split_text_with_regex. rewrite concat_filter_truthy.
  destruct sep as [|a sep].
  - apply concat_singletons.
  - destruct (fields_rebuild (a :: sep) text ltac:(discriminate) 0 [])
      as (f & fs & E & R).
    rewrite E. cbn [concat]. rewrite R. reflexivity.
Qed.

Lemma split_with_regex_nonempty text sep :
  Forall (fun s => s <> []) (_split_text_with_regex text sep).
Proof.
  unfold _split_text_with_regex. apply List.Forall_forall.
  intros s Hin. apply List.filter_In in Hin as [_ Ht].
  destruct s; [discriminate | discriminate].
Qed.

Lemma split_with_regex_chars text :
  Forall (fun s => length s = 1) (_split_text_with_regex text []).
Proof.
  unfold _split_text_with_regex. apply List.Forall_forall.
  intros s Hin. apply List.filter_In in Hin as [Hin _].
  apply List.in_map_iff in Hin as (c & <- & _). reflexivity.
Qed.

(** *** Joining *)

Lemma join_nil docs : join [] docs = concat docs.
Proof.
  induction docs as [|d docs IH]; [reflexivity|].
  destruct docs as [|d' docs].
  - cbn. now rewrite app_nil_r.
  - change (join [] (d :: d' :: docs)) with (d ++ [] ++ join [] (d' :: docs)).
    rewrite IH. reflexivity.
Qed.

(** *** The merge loop never indexes an empty list *)

Lemma join_length_cons sep first rest :
  length (join sep (first :: rest))
  = length first
    + (if 1 <? length (first :: rest) then length sep else 0)
    + length (join sep rest).
Proof.
  destruct rest as [|second rest].
  - cbn. lia.
  - change (join sep (first :: second :: rest))
      with (first ++ sep ++ join sep (second :: rest)).
    rewrite !length_app. simpl. lia.
Qed.

Lemma join_length_snoc sep cur d :
  length (join sep (cur ++ [d]))
  = length (join sep cur) + length d
    + (if 1 <? length (cur ++ [d]) then length sep else 0).
Proof.
  induction cur as [|a cur IH].
  - cbn. lia.
  - cbn [app]. rewrite !join_length_cons, IH.
    rewrite !length_app.
    destruct cur as [|b cur]; simpl; [lia|].
    rewrite !Nat.add_1_r. simpl. lia.
Qed.

(** With [total] the length of [current_doc] joined, the [while] loop
    finds a first piece whenever it asks for one, and leaves [total] the
    length of what it keeps. *)
Lemma pop_front_checked_ok self sep _len cur :
  forall total,
    total = length (join sep cur) ->
    exists kept total',
      pop_front_checked self sep _len cur total = Some (kept, total')
      /\ pop_front self sep _len cur total = (kept, total')
      /\ total' = length (join sep kept).
Proof.
  induction cur as [|first rest IH]; intros total Ht.
  - cbn in Ht. subst total. cbn [pop_front_checked pop_front].
    replace (chunk_overlap self <? 0) with false
      by (symmetry; apply Nat.ltb_ge; lia).
    rewrite andb_false_r. cbn [orb].
    exists [], 0. repeat split.
  - cbn [pop_front_checked pop_front].
    destruct ((chunk_overlap self <? total) || _) eqn:Hc.
    + apply IH. rewrite Ht, join_length_cons. lia.
    + exists (first :: rest), total. repeat split. exact Ht.
Qed.

Lemma merge_loop_checked_ok self sep splits :
  forall docs cur total,
    total = length (join sep cur) ->
    merge_loop_checked self sep splits docs cur total
    = Some (merge_loop self sep splits docs cur total).
Proof.
  induction splits as [|d splits IH]; intros docs cur total Ht.
  - reflexivity.
  - cbn [merge_loop_checked merge_loop].
    destruct ((chunk_size self <? _) && (0 <? length cur)).
    + destruct (pop_front_checked_ok self sep (length d) cur total Ht)
        as (kept & total' & E1 & E2 & Ht').
      rewrite E1, E2. apply IH.
      rewrite join_length_snoc, Ht'. reflexivity.
    + apply IH. rewrite join_length_snoc, Ht. reflexivity.
Qed.

(** [_merge_splits] runs to the end on every list of pieces. *)
Lemma merge_splits_total self sep splits :
  merge_loop_checked self sep splits [] [] 0
  = Some (_merge_splits self sep splits).
Proof. apply merge_loop_checked_ok. reflexivity. Qed.

(** *** Merging pieces that fit in one chunk *)

Lemma if_same {A} (b : bool) (x : A) : (if b then x else x) = x.
Proof. now destruct b. Qed.

Lemma merge_loop_fits self splits :
  forall docs cur total,
    total = length (concat cur) ->
    length (concat cur) + length (concat splits) <= chunk_size self ->
    merge_loop self [] splits docs cur total
    = append_doc docs (_join_docs (cur ++ splits) []).
Proof.
  induction splits as [|d splits IH]; intros docs cur total Ht Hfit.
  - cbn [merge_loop]. now rewrite app_nil_r.
  - cbn [merge_loop]. cbn [length]. rewrite !if_same, !Nat.add_0_r.
    cbn [concat] in Hfit. rewrite length_app in Hfit.
    assert (Hc : (chunk_size self <? total + length d) = false).
    { apply Nat.ltb_ge. lia. }
    rewrite Hc. cbn [andb]. rewrite if_same, Nat.add_0_r.
    rewrite (IH docs (cur ++ [d]) (total + length d)).
    + now rewrite <- app_assoc.
    + rewrite concat_app, length_app. cbn. rewrite app_nil_r. lia.
    + rewrite concat_app, length_app. cbn. rewrite app_nil_r. lia.
Qed.

Lemma merge_splits_fits self splits :
  length (concat splits) <= chunk_size self ->
  _merge_splits self [] splits
  = match _join_docs splits [] with Some d => [d] | None => [] end.
Proof.
  intros H. unfold _merge_splits.
  rewrite (merge_loop_fits self splits [] [] 0); [|reflexivity|cbn; lia].
  cbn [app]. now destruct (_join_docs splits []).
Qed.

Lemma join_docs_concat splits :
  match _join_docs splits [] with Some d => [d] | None => [] end
  = single_chunk (concat splits).
Proof.
  unfold _join_docs, single_chunk. rewrite join_nil.
  now destruct (truthy _).
Qed.

(** *** The loop over the pieces when all of them are short *)

Lemma split_loop_short self has recurse splits :
  Forall (fun s => length s < chunk_size self) splits ->
  forall good final,
    split_loop self has recurse splits good final
    = if truthy (good ++ splits)
      then final ++ _merge_splits self [] (good ++ splits)
      else final.
Proof.
  induction 1 as [|s splits Hs _ IH]; intros good final.
  - cbn [split_loop]. now rewrite app_nil_r.
  - cbn [split_loop]. apply Nat.ltb_lt in Hs. rewrite Hs.
    rewrite IH. now rewrite <- app_assoc.
Qed.

Lemma short_or_single n (ps : list (list ascii)) :
  Forall (fun s => s <> []) ps ->
  length (concat ps) <= n ->
  Forall (fun s => length s < n) ps
  \/ (ps = [concat ps] /\ n <= length (concat ps)).
Proof.
  induction 1 as [|s ps Hs Hps IH]; intros Hlen.
  - left. constructor.
  - cbn [concat] in *. rewrite length_app in Hlen.
    destruct (Nat.lt_ge_cases (length s) n) as [Hlt | Hge].
    + destruct (IH ltac:(lia)) as [Hall | [E Hn]].
      * left. now constructor.
      * exfalso. destruct s; [congruence | cbn in *; lia].
    + right. assert (E : ps = []).
      { destruct Hps as [|p ps Hp _]; [reflexivity|].
        destruct p; [congruence | cbn in *; rewrite length_app in *; cbn in *; lia]. }
      subst ps. cbn. rewrite app_nil_r. split; [reflexivity | lia].
Qed.

Lemma split_loop_all_short self has recurse text sep :
  Forall (fun s => length s < chunk_size self)
    (_split_text_with_regex text sep) ->
  length text <= chunk_size self ->
  split_loop self has recurse (_split_text_with_regex text sep) [] []
  = single_chunk text.
Proof.
  intros Hall Hlen. rewrite split_loop_short by exact Hall. cbn [app].
  pose proof (split_with_regex_concat text sep) as Hc.
  destruct (_split_text_with_regex text sep) as [|p ps] eqn:E.
  - cbn in Hc. subst text. reflexivity.
  - cbn [truthy]. rewrite merge_splits_fits by (rewrite Hc; exact Hlen).
    rewrite join_docs_concat. now rewrite Hc.
Qed.

(** A text of at most [chunk_size] characters comes back as one chunk, its
    stripped form, or as no chunk when it is blank. *)
Lemma split_text_small self seps :
  1 < chunk_size self ->
  has_empty seps = true ->
  forall text,
    length text <= chunk_size self ->
    _split_text self seps text = single_chunk text.
Proof.
  intros Hsize. induction seps as [|_s rest IH]; intros Hwf text Hlen.
  - discriminate.
  - cbn [_split_text]. destruct (truthy _s) eqn:Hs; cbn [negb].
    + assert (Hrest : has_empty rest = true).
      { unfold has_empty in *. cbn [existsb] in Hwf. now rewrite Hs in Hwf. }
      destruct (occurs _s text) eqn:Hocc.
      * destruct (short_or_single (chunk_size self)
                    (_split_text_with_regex text _s)
                    (split_with_regex_nonempty text _s))
          as [Hall | [E Hn]].
        { rewrite split_with_regex_concat. exact Hlen. }
        { now apply split_loop_all_short. }
        { rewrite split_with_regex_concat in E, Hn. rewrite E.
          cbn [split_loop].
          assert (Hge : (length text <? chunk_size self) = false)
            by (apply Nat.ltb_ge; exact Hn).
          rewrite Hge. cbn [truthy app].
          destruct rest as [|r rest']; [discriminate|]. cbn [truthy].
          apply (IH Hrest text Hlen). }
      * destruct rest as [|r rest']; [discriminate|].
        apply (IH Hrest text Hlen).
    + destruct _s; [|discriminate].
      apply split_loop_all_short; [|exact Hlen].
      eapply Forall_impl; [apply split_with_regex_chars|].
      cbn. intros s ->. exact Hsize.
Qed.

Lemma length_chars s : length (chars s) = String.length s.
Proof. unfold chars. induction s as [|c s IH]; cbn; [reflexivity | now rewrite IH]. Qed.

Lemma truthy_str_of_chars l : truthy_str (of_chars l) = truthy l.
Proof. destruct l; reflexivity. Qed.

End SplitterFacts.

(** C2, as stated, fails: a text of two characters that begins with a space
    comes back without the space. *)
Lemma chunk_text_strips_leading_space :
  String.length " a" <= 1200 /\ chunk_text " a" = ["a"] /\ chunk_text " a" <> [" a"].
Proof.
  split; [cbn; lia|]. split; [vm_compute; reflexivity|].
  vm_compute. discriminate.
Qed.

(** C2, amended.  The empty text is split into no chunk at all.  A text of at
    most 1200 characters is split into no chunk when it is blank, and
    otherwise into exactly one chunk: the text without its leading and
    trailing whitespace. *)
Theorem chunk_text_small :
  chunk_text "" = []
  /\ forall text,
       String.length text <= 1200 ->
       chunk_text text
       = if Py.truthy_str (Py.strip text) then [Py.strip text] else [].
Proof.
  split; [vm_compute; reflexivity|].
  intros text Hlen. unfold chunk_text, Splitter.split_text.
  rewrite (SplitterFacts.split_text_small splitter).
  - unfold single_chunk, Py.strip.
    rewrite SplitterFacts.truthy_str_of_chars.
    now destruct (Py.truthy _).
  - cbn. lia.
  - reflexivity.
  - rewrite SplitterFacts.length_chars. exact Hlen.
Qed.

(** A short text with spaces around it. *)
Lemma chunk_text_small_hello :
  chunk_text "  hello world "
  = if Py.truthy_str (Py.strip "  hello world ")
    then [Py.strip "  hello world "] else [].
Proof.
  apply (proj2 chunk_text_small "  hello world "). cbn. lia.
Defined.

(** *** Windows and chunks *)

Module WindowFacts.
Import Py PyFacts Splitter SplitterFacts Windows.

Lemma chunks_of_app ws1 ws2 :
  chunks_of (ws1 ++ ws2) = chunks_of ws1 ++ chunks_of ws2.
Proof. unfold chunks_of. apply omap_app. Qed.

Lemma chunks_of_snoc ws carry docs :
  chunks_of (ws ++ [(carry, concat docs)])
  = append_doc (chunks_of ws) (_join_docs docs []).
Proof.
  rewrite chunks_of_app. unfold _join_docs. rewrite join_nil.
  unfold chunks_of at 2. cbn [omap list_omap chunk_of snd].
  unfold chunk_of. cbn [snd].
  destruct (truthy (strip_chars (concat docs))); cbn.
  - reflexivity.
  - now rewrite app_nil_r.
Qed.

(** The instrumented merge loop computes the chunks of the real one. *)
Lemma merge_windows_chunks self splits :
  forall ws cur total carry,
    merge_loop self [] splits (chunks_of ws) cur total
    = chunks_of (merge_windows self splits ws cur total carry).
Proof.
  induction splits as [|d splits IH]; intros ws cur total carry.
  - cbn [merge_loop merge_windows]. now rewrite chunks_of_snoc.
  - cbn [merge_loop merge_windows]. cbn [length].
    rewrite !if_same, !Nat.add_0_r.
    destruct ((chunk_size self <? total + length d) && (0 <? length cur)).
    + destruct (pop_front self [] (length d) cur total) as [kept total'].
      rewrite <- chunks_of_snoc with (carry := carry).
      rewrite if_same, Nat.add_0_r. apply IH.
    + rewrite if_same, Nat.add_0_r. apply IH.
Qed.

Lemma merge_splits_chunks self splits :
  _merge_splits self [] splits
  = chunks_of (merge_windows self splits [] [] 0 0).
Proof. unfold _merge_splits. apply (merge_windows_chunks self splits []). Qed.

(** The loop over the pieces.  An oversize piece is either split further
    ([has] true) or does not occur at all. *)
Lemma split_loop_chunks self has recurse recurse_w splits :
  (has = true -> forall s, recurse s = chunks_of (recurse_w s)) ->
  (has = false -> Forall (fun s => length s < chunk_size self) splits) ->
  forall good final,
    split_loop self has recurse splits good (chunks_of final)
    = chunks_of (split_loop_windows self recurse_w splits good final).
Proof.
  intros Hrec Hshort. induction splits as [|s splits IH]; intros good final.
  - cbn [split_loop split_loop_windows].
    destruct (truthy good); [|reflexivity].
    now rewrite chunks_of_app, merge_splits_chunks.
  - assert (Hshort' : has = false ->
              Forall (fun s => length s < chunk_size self) splits).
    { intros H. specialize (Hshort H). now inversion Hshort. }
    specialize (IH Hshort').
    cbn [split_loop split_loop_windows].
    destruct (length s <? chunk_size self) eqn:Hs; [apply IH|].
    destruct has.
    + rewrite (Hrec eq_refl). rewrite <- IH. f_equal.
      destruct (truthy good); rewrite ?chunks_of_app, ?merge_splits_chunks;
        reflexivity.
    + specialize (Hshort eq_refl). inversion Hshort as [|? ? Hlt _]; subst.
      apply Nat.ltb_ge in Hs. lia.
Qed.

Lemma split_text_chunks self seps :
  1 < chunk_size self ->
  has_empty seps = true ->
  forall text,
    _split_text self seps text = chunks_of (_split_windows self seps text).
Proof.
  intros Hsize. induction seps as [|_s rest IH]; intros Hwf text.
  - discriminate.
  - cbn [_split_text _split_windows].
    destruct (truthy _s) eqn:Hs; cbn [negb].
    + assert (Hrest : has_empty rest = true).
      { unfold has_empty in *. cbn [existsb] in Hwf. now rewrite Hs in Hwf. }
      destruct rest as [|r rest']; [discriminate|].
      destruct (occurs _s text).
      * refine (split_loop_chunks self (truthy (r :: rest'))
                  (_split_text self (r :: rest'))
                  (_split_windows self (r :: rest')) _ _ _ [] []).
        -- intros _ s. now apply IH.
        -- discriminate.
      * now apply IH.
    + destruct _s; [|discriminate].
      refine (split_loop_chunks self false (fun _ => []) whole _ _ _ [] []).
      * discriminate.
      * intros _. eapply Forall_impl; [apply split_with_regex_chars|].
        cbn. intros s ->. exact Hsize.
Qed.

(** *** Stitched windows *)

Lemma unstitch_app ws1 ws2 :
  unstitch (ws1 ++ ws2) = unstitch ws1 ++ unstitch ws2.
Proof. unfold unstitch. now rewrite map_app, concat_app. Qed.

(** A first window that repeats nothing may follow any text. *)
Lemma stitched_after limit prev ws :
  stitched limit [] ws -> stitched limit prev ws.
Proof.
  destruct ws as [|[o w] rest]; [trivial|].
  cbn [stitched length]. intros (Hl & Ho & Hw & _ & Hrest).
  assert (o = 0) as -> by lia.
  repeat split; try lia; try exact Hrest.
  rewrite Nat.sub_0_r. now rewrite drop_all.
Qed.

Lemma stitched_app limit ws1 :
  forall prev ws2,
    stitched limit prev ws1 ->
    stitched limit (last_body prev ws1) ws2 ->
    stitched limit prev (ws1 ++ ws2).
Proof.
  induction ws1 as [|[o w] ws1 IH]; intros prev ws2 H1 H2.
  - exact H2.
  - cbn [stitched app last_body] in *.
    destruct H1 as (Hl & Ho & Hw & Ht & Hrest).
    repeat split; try assumption. now apply IH.
Qed.

Lemma stitched_concat limit ws1 ws2 :
  stitched limit [] ws1 -> stitched limit [] ws2 ->
  stitched limit [] (ws1 ++ ws2).
Proof.
  intros H1 H2. apply stitched_app; [exact H1|]. now apply stitched_after.
Qed.

Lemma last_body_snoc ws :
  forall prev o w, last_body prev (ws ++ [(o, w)]) = w.
Proof.
  induction ws as [|[o' w'] ws IH]; intros prev o w; [reflexivity|].
  cbn [app last_body]. apply IH.
Qed.

(** *** The pop loop *)

Lemma pop_front_spec self _len cur :
  forall total,
    total = length (concat cur) ->
    exists popped kept total',
      pop_front self [] _len cur total = (kept, total')
      /\ cur = popped ++ kept
      /\ total' = length (concat kept)
      /\ total' <= chunk_overlap self.
Proof.
  induction cur as [|first rest IH]; intros total Ht.
  - exists [], [], total. cbn in *. repeat split; lia.
  - cbn [pop_front].
    destruct ((chunk_overlap self <? total) || _) eqn:Hc.
    + destruct (IH (total - (length first
                      + (if 1 <? length (first :: rest) then length (@nil ascii) else 0))))
        as (popped & kept & total' & E & Hs & Ht' & Hle).
      { cbn [concat] in Ht. rewrite length_app in Ht.
        rewrite if_same. cbn [length]. lia. }
      exists (first :: popped), kept, total'.
      repeat split; try assumption. now rewrite Hs.
    + exists [], (first :: rest), total.
      apply orb_false_iff in Hc as [Hc _]. apply Nat.ltb_ge in Hc.
      repeat split; try assumption.
Qed.

(** *** The merge loop *)

Lemma merge_windows_spec self splits :
  forall ws cur total carry,
    total = length (concat cur) ->
    carry <= chunk_overlap self ->
    carry <= length (concat cur) ->
    carry <= length (last_body [] ws) ->
    take carry (concat cur)
    = drop (length (last_body [] ws) - carry) (last_body [] ws) ->
    stitched (chunk_overlap self) [] ws ->
    stitched (chunk_overlap self) []
      (merge_windows self splits ws cur total carry)
    /\ unstitch (merge_windows self splits ws cur total carry)
       = unstitch ws ++ drop carry (concat cur) ++ concat splits.
Proof.
  induction splits as [|d splits IH];
    intros ws cur total carry Ht Hl Hc Hb Htake Hst.
  - cbn [merge_windows]. split.
    + apply stitched_app; [exact Hst|]. cbn [stitched].
      repeat split; assumption.
    + rewrite unstitch_app. unfold unstitch at 2. cbn.
      now rewrite !app_nil_r.
  - cbn [merge_windows].
    destruct ((chunk_size self <? total + length d) && (0 <? length cur)).
    + destruct (pop_front_spec self (length d) cur total Ht)
        as (popped & kept & total' & E & Hs & Ht' & Hle).
      rewrite E.
      assert (Hst' : stitched (chunk_overlap self) []
                       (ws ++ [(carry, concat cur)])).
      { apply stitched_app; [exact Hst|]. cbn [stitched].
        repeat split; assumption. }
      destruct (IH (ws ++ [(carry, concat cur)]) (kept ++ [d])
                  (total' + length d) total') as [Hres Hun].
      * rewrite concat_app, length_app. cbn. rewrite app_nil_r. lia.
      * exact Hle.
      * rewrite concat_app, length_app. lia.
      * rewrite last_body_snoc, Hs, concat_app, length_app. lia.
      * rewrite last_body_snoc, concat_app, Ht'.
        rewrite take_app_length.
        rewrite Hs, concat_app, length_app.
        replace (length (concat popped) + length (concat kept)
                 - length (concat kept)) with (length (concat popped)) by lia.
        now rewrite drop_app_length.
      * exact Hst'.
      * split; [exact Hres|]. rewrite Hun, unstitch_app.
        unfold unstitch at 2. cbn [map concat fst snd].
        rewrite concat_app, Ht', drop_app_length. cbn [concat].
        rewrite !app_nil_r, <- !app_assoc. reflexivity.
    + destruct (IH ws (cur ++ [d]) (total + length d) carry) as [Hres Hun].
      * rewrite concat_app, length_app. cbn. rewrite app_nil_r. lia.
      * exact Hl.
      * rewrite concat_app, length_app. lia.
      * exact Hb.
      * rewrite concat_app, take_app_le by exact Hc. exact Htake.
      * exact Hst.
      * split; [exact Hres|]. rewrite Hun.
        rewrite concat_app, drop_app_le by exact Hc. cbn [concat].
        rewrite !app_nil_r, <- !app_assoc. reflexivity.
Qed.

Lemma merge_windows_fresh self splits :
  stitched (chunk_overlap self) [] (merge_windows self splits [] [] 0 0)
  /\ unstitch (merge_windows self splits [] [] 0 0) = concat splits.
Proof.
  destruct (merge_windows_spec self splits [] [] 0 0) as [H1 H2];
    cbn; try lia; try reflexivity; try exact I.
  split; [exact H1 | exact H2].
Qed.

(** *** The loop over the pieces *)

Lemma split_loop_windows_spec self recurse_w splits :
  (forall s, stitched (chunk_overlap self) [] (recurse_w s)
             /\ unstitch (recurse_w s) = s) ->
  forall good final,
    stitched (chunk_overlap self) [] final ->
    stitched (chunk_overlap self) []
      (split_loop_windows self recurse_w splits good final)
    /\ unstitch (split_loop_windows self recurse_w splits good final)
       = unstitch final ++ concat good ++ concat splits.
Proof.
  intros Hrec. induction splits as [|s splits IH]; intros good final Hst.
  - cbn [split_loop_windows]. destruct good as [|g good].
    + cbn. now rewrite app_nil_r.
    + cbn [truthy]. destruct (merge_windows_fresh self (g :: good)) as [H1 H2].
      split.
      * now apply stitched_concat.
      * rewrite unstitch_app, H2. cbn [concat]. now rewrite !app_nil_r.
  - cbn [split_loop_windows].
    destruct (length s <? chunk_size self).
    + destruct (IH (good ++ [s]) final Hst) as [H1 H2]. split; [exact H1|].
      rewrite H2, concat_app. cbn [concat].
      rewrite !app_nil_r, <- !app_assoc. reflexivity.
    + destruct (Hrec s) as [Hr1 Hr2].
      assert (Hflush :
        stitched (chunk_overlap self) []
          (if truthy good
           then final ++ merge_windows self good [] [] 0 0 else final)
        /\ unstitch (if truthy good
                     then final ++ merge_windows self good [] [] 0 0
                     else final)
           = unstitch final ++ concat good).
      { destruct good as [|g good].
        - cbn. now rewrite app_nil_r.
        - cbn [truthy].
          destruct (merge_windows_fresh self (g :: good)) as [H1 H2].
          split; [now apply stitched_concat|].
          now rewrite unstitch_app, H2. }
      destruct Hflush as [Hf1 Hf2].
      destruct (IH [] (_ ++ recurse_w s) (stitched_concat _ _ _ Hf1 Hr1))
        as [H1 H2].
      split; [exact H1|].
      rewrite H2, unstitch_app, Hf2, Hr2. cbn [concat app].
      rewrite <- !app_assoc. reflexivity.
Qed.

Lemma whole_spec limit s :
  stitched limit [] (whole s) /\ unstitch (whole s) = s.
Proof.
  unfold whole, unstitch. cbn. rewrite app_nil_r.
  repeat split; lia.
Qed.

(** *** The windows of a text *)

Lemma split_windows_spec self seps :
  forall text,
    stitched (chunk_overlap self) [] (_split_windows self seps text)
    /\ (seps <> [] -> unstitch (_split_windows self seps text) = text).
Proof.
  induction seps as [|_s rest IH]; intros text.
  - cbn. split; [exact I | congruence].
  - cbn [_split_windows].
    assert (Hloop : forall recurse_w,
      (forall s, stitched (chunk_overlap self) [] (recurse_w s)
                 /\ unstitch (recurse_w s) = s) ->
      stitched (chunk_overlap self) []
        (split_loop_windows self recurse_w
           (_split_text_with_regex text _s) [] [])
      /\ unstitch
           (split_loop_windows self recurse_w
              (_split_text_with_regex text _s) [] []) = text).
    { intros recurse_w Hrec.
      destruct (split_loop_windows_spec self recurse_w
                  (_split_text_with_regex text _s) Hrec [] [] I) as [H1 H2].
      split; [exact H1|]. rewrite H2. cbn.
      apply split_with_regex_concat. }
    assert (Hrest : rest <> [] ->
      forall s, stitched (chunk_overlap self) [] (_split_windows self rest s)
                /\ unstitch (_split_windows self rest s) = s).
    { intros Hne s. destruct (IH s) as [H1 H2]. split; [exact H1 | now apply H2]. }
    destruct (negb (truthy _s)).
    + destruct (Hloop whole (whole_spec _)) as [H1 H2]. now split.
    + destruct (occurs _s text).
      * destruct rest as [|r rest'].
        -- destruct (Hloop whole (whole_spec _)) as [H1 H2]. now split.
        -- destruct (Hloop _ (Hrest ltac:(discriminate))) as [H1 H2].
           now split.
      * destruct rest as [|r rest'].
        -- destruct (Hloop whole (whole_spec _)) as [H1 H2]. now split.
        -- destruct (Hrest ltac:(discriminate) text) as [H1 H2]. now split.
Qed.

End WindowFacts.

(** C1, as stated, fails.  A leading space is dropped, so the chunks of the
    text " a" do not give the text back; and the fourteen hundred characters
    of [two_hundred_words] come back as two chunks whose windows share 147
    characters, not 150, so that removing 150 characters from the second
    chunk removes text that the first chunk does not hold. *)
Lemma remove_overlaps_loses_characters :
  remove_overlaps 150 (chunk_text " a") <> " a"
  /\ remove_overlaps 150 (chunk_text two_hundred_words) <> two_hundred_words
  /\ map fst (chunk_windows two_hundred_words) = [0; 147].
Proof.
  split; [vm_compute; discriminate|]. split.
  - intros E. apply (f_equal String.length) in E. vm_compute in E. discriminate.
  - vm_compute. reflexivity.
Qed.

(** C1, amended.  The chunks are, in order, the windows of the text with the
    whitespace at their two ends removed, blank windows left out.  Every
    window after the first repeats at most 150 characters, and these are the
    last characters of the window before it; with the repeated characters
    removed, the windows concatenated are the text: no character is missing
    from the windows, and none is repeated beyond that overlap. *)
Theorem chunk_text_windows_cover (text : string) :
  exists windows : list Windows.window,
    chunk_text text = map Py.of_chars (Windows.chunks_of windows)
    /\ Windows.stitched 150 [] windows
    /\ Windows.unstitch windows = Py.chars text.
Proof.
  exists (chunk_windows text).
  unfold chunk_text, chunk_windows, Splitter.split_text.
  split; [|split].
  - f_equal. apply WindowFacts.split_text_chunks.
    + cbn. lia.
    + reflexivity.
  - apply (WindowFacts.split_windows_spec splitter).
  - apply (WindowFacts.split_windows_spec splitter). discriminate.
Qed.

(** ** Ingestion *)

(** C9. Extensions are compared without regard to case.  A path whose
    extension is none of .pdf, .txt and .md makes [file_to_text] fail with
    the unsupported-format error, and a path with one of these extensions
    never does: it yields the text, or the failure of the read itself. *)
Theorem unsupported_format (fs : files) (path : Pathlib.Path) :
  (~ In (Py.lower (Pathlib.suffix path)) supported_suffixes ->
   file_to_text fs path
   = Failure (UnsupportedFormat
                ("Unsupported file type: " +:+ Pathlib.suffix path)))
  /\ (In (Py.lower (Pathlib.suffix path)) supported_suffixes ->
      forall message,
        file_to_text fs path <> Failure (UnsupportedFormat message)).
Proof.
  unfold file_to_text, supported_suffixes.
  destruct (String.eqb_spec (Py.lower (Pathlib.suffix path)) ".pdf") as [Hpdf | Hpdf].
  - split.
    + intros Hn. exfalso. apply Hn. left. now rewrite Hpdf.
    + intros _ message. destruct (pdf_pages fs path); discriminate.
  - destruct (Py.in_list (Py.lower (Pathlib.suffix path)) [".txt"; ".md"]) eqn:Htxt.
    + split.
      * intros Hn. exfalso. apply Hn. right.
        now apply PyFacts.in_list_In in Htxt.
      * intros _ message. destruct (read_text fs path); discriminate.
    + split.
      * reflexivity.
      * intros [E | Hin] message.
        -- now rewrite E in Hpdf.
        -- apply PyFacts.in_list_In in Hin. rewrite Hin in Htxt. discriminate.
Qed.

(** A .docx path is refused; a path ending in .PDF is read as a PDF. *)
Lemma unsupported_format_docx :
  file_to_text demo_files "docs/report.docx"
  = Failure (UnsupportedFormat
               ("Unsupported file type: " +:+ Pathlib.suffix "docs/report.docx"))
  /\ (forall message,
        file_to_text demo_files "docs/report.PDF"
        <> Failure (UnsupportedFormat message)).
Proof.
  split.
  - apply (proj1 (unsupported_format demo_files "docs/report.docx")).
    vm_compute. intros [H | [H | [H | []]]]; discriminate.
  - apply (proj2 (unsupported_format demo_files "docs/report.PDF")).
    vm_compute. left. reflexivity.
Defined.

(** *** Hashes and identifiers *)

Module HashFacts.
Import Py PyFacts.

(** The fuel of [digest], one unit per word, is enough: more fuel gives
    the same hash value. *)
Lemma blocks_fuel fuel :
  forall fuel' h ws,
    length ws <= fuel -> length ws <= fuel' ->
    SHA256.blocks fuel h ws = SHA256.blocks fuel' h ws.
Proof.
  induction fuel as [|fuel IH]; intros fuel' h ws H H'.
  - destruct ws; [|cbn in H; lia]. destruct fuel'; reflexivity.
  - destruct ws as [|w ws]; [destruct fuel'; reflexivity|].
    destruct fuel' as [|fuel']; [cbn in H'; lia|].
    cbn [SHA256.blocks]. apply IH.
    + rewrite length_drop. cbn [length] in *. lia.
    + rewrite length_drop. cbn [length] in *. lia.
Qed.

Lemma hex_digit_is_hex n : is_hex_digit (SHA256.hex_digit n) = true.
Proof.
  unfold SHA256.hex_digit.
  assert (H : (Z.to_nat (Z.land n 15) < 16)%nat).
  { change 15%Z with (Z.ones 4). rewrite Z.land_ones by lia.
    pose proof (Z.mod_pos_bound n (2 ^ 4) ltac:(lia)). lia. }
  revert H. generalize (Z.to_nat (Z.land n 15)). intros k Hk.
  do 16 (destruct k as [|k]; [vm_compute; reflexivity|]). lia.
Qed.

Lemma hex_word_is_hex x : forallb is_hex_digit (SHA256.hex_word x) = true.
Proof.
  unfold SHA256.hex_word. cbn [forallb]. now rewrite !hex_digit_is_hex.
Qed.

Lemma hexdigest_chars msg :
  exists a b c d e f g h,
    chars (SHA256.hexdigest msg)
    = SHA256.hex_word a ++ SHA256.hex_word b ++ SHA256.hex_word c
      ++ SHA256.hex_word d ++ SHA256.hex_word e ++ SHA256.hex_word f
      ++ SHA256.hex_word g ++ SHA256.hex_word h.
Proof.
  unfold SHA256.hexdigest. rewrite chars_of_chars.
  destruct (SHA256.digest msg) as [a b c d e f g h].
  exists a, b, c, d, e, f, g, h. cbn [flat_map SHA256.sa SHA256.sb SHA256.sc
    SHA256.sd SHA256.se SHA256.sf SHA256.sg SHA256.sh].
  now rewrite app_nil_r.
Qed.

Lemma hexdigest_length msg : String.length (SHA256.hexdigest msg) = 64.
Proof.
  rewrite <- SplitterFacts.length_chars.
  destruct (hexdigest_chars msg) as (a & b & c & d & e & f & g & h & ->).
  reflexivity.
Qed.

Lemma hash_text_chars text :
  exists a b,
    chars (hash_text text) = SHA256.hex_word a ++ SHA256.hex_word b.
Proof.
  unfold hash_text. rewrite chars_of_chars.
  destruct (hexdigest_chars (utf8_encode text))
    as (a & b & c & d & e & f & g & h & ->).
  exists a, b. reflexivity.
Qed.

Lemma build_items_from_lookup file_path chunks :
  forall start idx chunk,
    chunks !! idx = Some chunk ->
    item_id <$> build_items_from file_path start chunks !! idx
    = Some (Pathlib.name file_path +:+ "-" +:+ str_of_nat (start + idx)
            +:+ "-" +:+ hash_text chunk).
Proof.
  induction chunks as [|c chunks IH]; intros start idx chunk H.
  - destruct idx; discriminate.
  - destruct idx as [|idx]; cbn in H.
    + injection H as ->. cbn. now rewrite Nat.add_0_r.
    + cbn [build_items_from]. cbn [lookup list_lookup].
      change (item_id <$> build_items_from file_path (S start) chunks !! idx
              = Some (Pathlib.name file_path +:+ "-"
                      +:+ str_of_nat (start + S idx) +:+ "-" +:+ hash_text chunk)).
      rewrite (IH (S start) idx chunk H). now rewrite Nat.add_succ_r.
Qed.

Lemma build_items_from_length file_path chunks :
  forall start, length (build_items_from file_path start chunks) = length chunks.
Proof.
  induction chunks as [|c chunks IH]; intros start; cbn; [reflexivity|].
  now rewrite IH.
Qed.

End HashFacts.

(** C3. [hash_text] is a function of the text alone: the first sixteen
    characters of the SHA-256 hex digest of its UTF-8 encoding, hence sixteen
    lower-case hexadecimal digits.  The id of the item at position [idx] is
    the file name, the position and the hash of the chunk, joined by
    hyphens; so ingesting a file whose extracted text is unchanged yields
    the same items, with the same ids. *)
Theorem content_addressed_ids :
  (forall text,
      hash_text text
      = Py.of_chars (take 16 (Py.chars (SHA256.hexdigest (utf8_encode text))))
      /\ String.length (SHA256.hexdigest (utf8_encode text)) = 64
      /\ String.length (hash_text text) = 16
      /\ forallb is_hex_digit (Py.chars (hash_text text)) = true)
  /\ (forall text text', text = text' -> hash_text text = hash_text text')
  /\ (forall file_path chunks idx chunk,
        chunks !! idx = Some chunk ->
        item_id <$> build_items file_path chunks !! idx
        = Some (Pathlib.name file_path +:+ "-" +:+ Py.str_of_nat idx
                +:+ "-" +:+ hash_text chunk))
  /\ (forall file_path chunks,
        length (build_items file_path chunks) = length chunks)
  /\ (forall fs fs' file_path,
        file_to_text fs file_path = file_to_text fs' file_path ->
        items_of_file fs file_path = items_of_file fs' file_path)
  /\ hash_text "test" = "9f86d081884c7d65"
  /\ map item_id (build_items "docs/notes.txt" ["test"; "abc"])
     = ["notes.txt-0-9f86d081884c7d65"; "notes.txt-1-ba7816bf8f01cfea"].
Proof.
  split; [|split; [|split; [|split; [|split; [|split]]]]].
  - intros text. split; [reflexivity|]. split; [apply HashFacts.hexdigest_length|].
    destruct (HashFacts.hash_text_chars text) as (a & b & E). split.
    + rewrite <- SplitterFacts.length_chars, E. reflexivity.
    + rewrite E, forallb_app. now rewrite !HashFacts.hex_word_is_hex.
  - intros text text' ->. reflexivity.
  - intros file_path chunks idx chunk H. unfold build_items.
    now rewrite (HashFacts.build_items_from_lookup file_path chunks 0 idx chunk H).
  - intros file_path chunks. apply HashFacts.build_items_from_length.
  - intros fs fs' file_path E. unfold items_of_file. now rewrite E.
  - vm_compute. reflexivity.
  - vm_compute. reflexivity.
Qed.

(** The second item of a file of two chunks, and the same text file read
    from two states of the file system. *)
Lemma content_addressed_ids_notes :
  item_id <$> build_items "docs/notes.txt" ["test"; "abc"] !! 1
  = Some (Pathlib.name "docs/notes.txt" +:+ "-" +:+ Py.str_of_nat 1
          +:+ "-" +:+ hash_text "abc")
  /\ items_of_file demo_files "docs/notes.txt"
     = items_of_file demo_files_later "docs/notes.txt".
Proof.
  split.
  - apply (proj1 (proj2 (proj2 content_addressed_ids))
             "docs/notes.txt" ["test"; "abc"] 1 "abc").
    reflexivity.
  - apply (proj1 (proj2 (proj2 (proj2 (proj2 content_addressed_ids))))
             demo_files demo_files_later "docs/notes.txt").
    reflexivity.
Defined.
